(** * Finance dashboard: the calculation engine of [src/lib/calculations/finance.ts]
    and its callers

    A shallow embedding of the six exported functions of [finance.ts]
    ([calculateEMI], [generateAmortizationSchedule], [calculateInvestmentGrowth],
    [generateWealthProjection], [calculatePrepaymentImpact],
    [calculateMonthlySavingsForGoal]) and the properties the specification
    states about them; then of the code around them: the data model of
    [src/lib/models.ts], the debugging utilities [debugNetWorthCalculation]
    and [debugForecastCalculation] ([lib/utils/debugUtils.ts], in the source
    tree as [unnamed/part_002]), [calculateBankAccountGrowth] of
    [src/lib/utils/bankAccountUtils.ts], and the computations of the pages
    that feed or repeat the engine: the projection of the forecast page
    ([unnamed/part_005]), the monthly income of the dashboard
    ([unnamed/part_006]) and of the income page ([src/pages/Income.tsx]), the
    monthly expenses and the category totals of the expenses page
    ([unnamed/part_006]).

    ** Numbers

    A TypeScript [number] is modelled by the type [number] below: the
    IEEE-754 special values [NaN], [+Infinity], [-Infinity] with their
    propagation rules (0/0 is NaN, x/0 is an infinity, NaN poisons every
    operation and makes every comparison false), and finite values as exact
    rationals, kept in lowest terms so that long schedules evaluate.  The
    binary64 rounding error of the finite operations is not modelled: finite
    arithmetic is exact, there is one zero, and no overflow.  [Math.round],
    [Math.ceil] and [Math.pow] at an integer exponent are exact; [Math.log],
    which has no rational model, is a parameter of the one function that
    calls it, and so is [formatCurrency], which formats through
    [Intl.NumberFormat].

    Tenures and year counts are integers in every caller and in the
    specification's data model; they are modelled as [Z] and injected into
    [number] where the code uses them in arithmetic.

    ** What is left out

    The storage layer ([localStorage] and JSON behind the repositories, and
    [updateBankAccountBalance] on top of them), the event helpers of
    [navigation.ts], the [Intl] formatters and the rendering and form
    handling of the pages have no model here. *)

From Stdlib Require Import ZArith QArith Qround Qpower Qfield Lqa Lia List Bool.
From Stdlib Require String.
Import ListNotations.
Import String.StringSyntax.
Delimit Scope string_scope with string.

(** ** The number model *)

Module Num.

Inductive number : Type :=
| NaN
| Infinity (negative : bool)
| Fin (q : Q).

(** A finite result, in lowest terms. *)
Definition fin (q : Q) : number := Fin (Qred q).

Definition of_Z (z : Z) : number := Fin (inject_Z z).

Definition is_zero (q : Q) : bool := Qeq_bool q 0.
Definition is_neg (q : Q) : bool := negb (Qle_bool 0 q).

Definition add (x y : number) : number :=
  match x, y with
  | NaN, _ | _, NaN => NaN
  | Infinity a, Infinity b => if Bool.eqb a b then Infinity a else NaN
  | Infinity a, Fin _ => Infinity a
  | Fin _, Infinity b => Infinity b
  | Fin p, Fin q => fin (p + q)
  end.

Definition sub (x y : number) : number :=
  match x, y with
  | NaN, _ | _, NaN => NaN
  | Infinity a, Infinity b => if Bool.eqb a b then NaN else Infinity a
  | Infinity a, Fin _ => Infinity a
  | Fin _, Infinity b => Infinity (negb b)
  | Fin p, Fin q => fin (p - q)
  end.

Definition mul (x y : number) : number :=
  match x, y with
  | NaN, _ | _, NaN => NaN
  | Infinity a, Infinity b => Infinity (xorb a b)
  | Infinity a, Fin q | Fin q, Infinity a =>
      if is_zero q then NaN else Infinity (xorb a (is_neg q))
  | Fin p, Fin q => fin (p * q)
  end.

(** Division: 0/0 and Infinity/Infinity are NaN, a non-zero finite value
    over zero is an infinity of the dividend's sign. *)
Definition div (x y : number) : number :=
  match x, y with
  | NaN, _ | _, NaN => NaN
  | Infinity _, Infinity _ => NaN
  | Infinity a, Fin q => Infinity (xorb a (is_neg q))
  | Fin _, Infinity _ => Fin 0
  | Fin p, Fin q =>
      if is_zero q
      then (if is_zero p then NaN else Infinity (is_neg p))
      else fin (p / q)
  end.

(** The comparisons [<], [<=] and [===] of two numbers: false as soon as
    one side is NaN. *)
Definition ltb (x y : number) : bool :=
  match x, y with
  | NaN, _ | _, NaN => false
  | Infinity a, Infinity b => a && negb b
  | Infinity a, Fin _ => a
  | Fin _, Infinity b => negb b
  | Fin p, Fin q => negb (Qle_bool q p)
  end.

Definition leb (x y : number) : bool :=
  match x, y with
  | NaN, _ | _, NaN => false
  | Infinity a, Infinity b => a || negb b
  | Infinity a, Fin _ => a
  | Fin _, Infinity b => negb b
  | Fin p, Fin q => Qle_bool p q
  end.

Definition strict_eq (x y : number) : bool :=
  match x, y with
  | NaN, _ | _, NaN => false
  | Infinity a, Infinity b => Bool.eqb a b
  | Fin p, Fin q => Qeq_bool p q
  | _, _ => false
  end.

(** [Math.round]: the nearest integer, a tie going towards +Infinity. *)
Definition Math_round (x : number) : number :=
  match x with
  | Fin q => of_Z (Qfloor (q + (1 # 2)))
  | _ => x
  end.

Definition Math_ceil (x : number) : number :=
  match x with
  | Fin q => of_Z (Qceiling q)
  | _ => x
  end.

(** [Math.pow] at an integer exponent.  An exponent of 0 gives 1 whatever
    the base, NaN included. *)
Definition Math_pow (x : number) (n : Z) : number :=
  if (n =? 0)%Z then Fin 1
  else match x with
       | NaN => NaN
       | Infinity s => if (0 <? n)%Z then Infinity (s && Z.odd n) else Fin 0
       | Fin q => if is_zero q && (n <? 0)%Z then Infinity false else fin (q ^ n)
       end.

End Num.

Export Num.

Declare Scope number_scope.
Delimit Scope number_scope with num.
Bind Scope number_scope with number.
Infix "+" := add : number_scope.
Infix "-" := sub : number_scope.
Infix "*" := mul : number_scope.
Infix "/" := div : number_scope.
Infix "<=?" := leb : number_scope.
Infix "<?" := ltb : number_scope.
Infix "===" := strict_eq (at level 70) : number_scope.

(** The idiom [Math.round(x * 100) / 100] of [finance.ts]: [x] rounded to two
    decimals. *)
Definition to_cents (x : number) : number :=
  (Math_round (x * Fin 100) / Fin 100)%num.

(** ** [calculateEMI] *)

Definition calculateEMI (principal interestRate : number) (tenureMonths : Z) : number :=
  let monthlyRate := (interestRate / Fin 100 / Fin 12)%num in
  let emi := (principal *
              monthlyRate *
              Math_pow (Fin 1 + monthlyRate) tenureMonths /
              (Math_pow (Fin 1 + monthlyRate) tenureMonths - Fin 1))%num in
  (Math_round (emi * Fin 100) / Fin 100)%num.

(** ** [generateAmortizationSchedule] *)

Record ScheduleRow : Type := mkScheduleRow {
  month : Z;
  emi : number;
  principalPayment : number;
  interestPayment : number;
  remainingPrincipal : number
}.

Section AmortizationLoop.

Variable tenureMonths : Z.
Variables monthlyRate exactEmi : number.

(** The body of [for (let month = 1; month <= tenureMonths; month++)], with
    the loop variable [month] and the carried [remainingPrincipal] as
    arguments; the rows pushed from [month] on, in order.  [fuel] bounds the
    number of iterations. *)
Fixpoint schedule_loop (fuel : nat) (month : Z) (remainingPrincipal : number)
  : list ScheduleRow :=
  match fuel with
  | O => []
  | S fuel' =>
      if (month <=? tenureMonths)%Z then
        let interestPayment := (remainingPrincipal * monthlyRate)%num in
        if (month =? tenureMonths)%Z then
          let principalPayment := remainingPrincipal in
          mkScheduleRow
            month
            (Math_round ((interestPayment + principalPayment) * Fin 100) / Fin 100)%num
            (Math_round (principalPayment * Fin 100) / Fin 100)%num
            (Math_round (interestPayment * Fin 100) / Fin 100)%num
            (Fin 0)
          :: schedule_loop fuel' (month + 1)%Z remainingPrincipal
        else
          let principalPayment := (exactEmi - interestPayment)%num in
          let remainingPrincipal := (remainingPrincipal - principalPayment)%num in
          mkScheduleRow
            month
            (Math_round (exactEmi * Fin 100) / Fin 100)%num
            (Math_round (principalPayment * Fin 100) / Fin 100)%num
            (Math_round (interestPayment * Fin 100) / Fin 100)%num
            (Math_round (remainingPrincipal * Fin 100) / Fin 100)%num
          :: schedule_loop fuel' (month + 1)%Z remainingPrincipal
      else []
  end.

End AmortizationLoop.

Definition generateAmortizationSchedule
  (principal interestRate : number) (tenureMonths : Z) : list ScheduleRow :=
  let monthlyRate := (interestRate / Fin 100 / Fin 12)%num in
  let remainingPrincipal := principal in
  let exactEmi := (principal * monthlyRate * Math_pow (Fin 1 + monthlyRate) tenureMonths /
                   (Math_pow (Fin 1 + monthlyRate) tenureMonths - Fin 1))%num in
  schedule_loop tenureMonths monthlyRate exactEmi
    (Z.to_nat tenureMonths) 1%Z remainingPrincipal.

(** ** [calculateInvestmentGrowth] *)

Definition calculateInvestmentGrowth
  (initialAmount monthlyContribution annualRate : number) (years : Z) : number :=
  let monthlyRate := (annualRate / Fin 100 / Fin 12)%num in
  let totalMonths := (years * 12)%Z in
  let initialGrowth := (initialAmount * Math_pow (Fin 1 + monthlyRate) totalMonths)%num in
  let contributionGrowth := (monthlyContribution *
                             (Math_pow (Fin 1 + monthlyRate) totalMonths - Fin 1) /
                             monthlyRate)%num in
  (Math_round ((initialGrowth + contributionGrowth) * Fin 100) / Fin 100)%num.

(** ** [generateWealthProjection] *)

Record ProjectionPoint : Type := mkProjectionPoint {
  year : Z;
  netWorth : number
}.

Section ProjectionLoop.

Variables yearlySavings growthRate : number.
Variable years : Z.

(** The body of [for (let year = 0; year <= years; year++)]: the points
    pushed from [year] on, [currentNetWorth] being the carried value. *)
Fixpoint projection_loop (fuel : nat) (year : Z) (currentNetWorth : number)
  : list ProjectionPoint :=
  match fuel with
  | O => []
  | S fuel' =>
      if (year <=? years)%Z then
        mkProjectionPoint year (Math_round (currentNetWorth * Fin 100) / Fin 100)%num
        :: projection_loop fuel' (year + 1)%Z
             (currentNetWorth * (Fin 1 + growthRate / Fin 100) + yearlySavings)%num
      else []
  end.

End ProjectionLoop.

Definition generateWealthProjection
  (initialNetWorth yearlySavings growthRate : number) (years : Z)
  : list ProjectionPoint :=
  let currentNetWorth := initialNetWorth in
  projection_loop yearlySavings growthRate years
    (Z.to_nat (years + 1)) 0%Z currentNetWorth.

(** ** [calculatePrepaymentImpact] *)

Record PrepaymentImpact : Type := mkPrepaymentImpact {
  originalEMI : number;
  originalTenure : Z;
  reducedEMI : number;
  reducedTenure : number;
  interestSaved : number;
  tenureSaved : number
}.

Section Prepayment.

(** [Math.log]: the natural logarithm has no exact rational model; the
    function is taken as given. *)
Variable Math_log : number -> number.

Definition calculatePrepaymentImpact
  (principal interestRate : number) (tenureMonths : Z) (prepaymentAmount : number)
  : PrepaymentImpact :=
  let originalEMI := calculateEMI principal interestRate tenureMonths in
  let reducedPrincipal := (principal - prepaymentAmount)%num in
  if (reducedPrincipal <=? Fin 0)%num then
    mkPrepaymentImpact
      originalEMI
      tenureMonths
      (Fin 0)
      (Fin 0)
      (principal * interestRate / Fin 100 / Fin 12 * of_Z tenureMonths - prepaymentAmount)%num
      (of_Z tenureMonths)
  else
    let monthlyRate := (interestRate / Fin 100 / Fin 12)%num in
    let reducedTenure := Math_ceil
      (Math_log (originalEMI / (originalEMI - reducedPrincipal * monthlyRate)) /
       Math_log (Fin 1 + monthlyRate))%num in
    let reducedEMI := calculateEMI reducedPrincipal interestRate tenureMonths in
    let originalTotalPayment := (originalEMI * of_Z tenureMonths)%num in
    let reducedTotalPayment := (reducedEMI * of_Z tenureMonths)%num in
    let interestSaved :=
      (originalTotalPayment - reducedTotalPayment - prepaymentAmount)%num in
    mkPrepaymentImpact
      originalEMI
      tenureMonths
      reducedEMI
      reducedTenure
      (Math_round (interestSaved * Fin 100) / Fin 100)%num
      (of_Z tenureMonths - reducedTenure)%num.

End Prepayment.

(** ** [calculateMonthlySavingsForGoal] *)

Definition calculateMonthlySavingsForGoal
  (targetAmount currentAmount : number) (yearsToGoal : Z) (annualRate : number)
  : number :=
  let monthlyRate := (annualRate / Fin 100 / Fin 12)%num in
  let totalMonths := (yearsToGoal * 12)%Z in
  let futureValueOfCurrent :=
    (currentAmount * Math_pow (Fin 1 + monthlyRate) totalMonths)%num in
  let amountToSave := (targetAmount - futureValueOfCurrent)%num in
  if (amountToSave <=? Fin 0)%num then Fin 0
  else
    let monthlySavings :=
      (amountToSave /
       ((Math_pow (Fin 1 + monthlyRate) totalMonths - Fin 1) / monthlyRate))%num in
    (Math_round (monthlySavings * Fin 100) / Fin 100)%num.

(** * The data model and the callers of the calculation engine *)

(** ** Further operations on numbers *)

(** [x > y]: false as soon as one side is NaN. *)
Definition gtb (x y : number) : bool := ltb y x.

Infix ">?" := gtb : number_scope.

(** The truth value of a number where the code uses it as a condition: 0 and
    NaN are false. *)
Definition truthy (x : number) : bool :=
  match x with
  | NaN => false
  | Infinity _ => true
  | Fin q => negb (is_zero q)
  end.

(** [x || y] on numbers. *)
Definition or_else (x y : number) : number := if truthy x then x else y.

(** ** The data model of [src/lib/models.ts] *)

(** A [Date], as its time value: milliseconds since the epoch. *)
Definition Date : Type := Z.

Module AssetCategory.
Inductive t : Type :=
| REAL_ESTATE | GOLD | MUTUAL_FUND | STOCK | FIXED_DEPOSIT | PPF | EPF | CASH | OTHER.
End AssetCategory.

Module BankAccountType.
Inductive t : Type :=
| SAVINGS | CURRENT | SALARY | FIXED_DEPOSIT | RECURRING_DEPOSIT | NRE | NRO | OTHER.
End BankAccountType.

Module IncomeCategory.
Inductive t : Type :=
| SALARY | BUSINESS | RENTAL | INVESTMENT | DIVIDEND | INTEREST | OTHER.
End IncomeCategory.

Module Frequency.
Inductive t : Type :=
| ONE_TIME | WEEKLY | MONTHLY | QUARTERLY | HALF_YEARLY | YEARLY.
End Frequency.

Module ExpenseCategory.
Inductive t : Type :=
| HOUSING | TRANSPORTATION | FOOD | UTILITIES | INSURANCE | HEALTHCARE
| ENTERTAINMENT | EDUCATION | PERSONAL | DEBT | OTHER.
End ExpenseCategory.

Module LoanType.
Inductive t : Type :=
| HOME | CAR | PERSONAL | EDUCATION | CREDIT_CARD | OTHER.
End LoanType.

Module Asset.
Record t : Type := mk {
  id : String.string;
  createdAt : Date;
  updatedAt : Date;
  name : String.string;
  category : AssetCategory.t;
  purchaseDate : Date;
  purchaseAmount : number;
  currentValue : number;
  growthRate : number;
  notes : option String.string
}.
End Asset.

Module BankAccount.
Record t : Type := mk {
  id : String.string;
  createdAt : Date;
  updatedAt : Date;
  name : String.string;
  accountNumber : String.string;
  accountType : BankAccountType.t;
  balance : number;
  interestRate : number;
  isAsset : bool;
  notes : option String.string
}.
End BankAccount.

Module Income.
Record t : Type := mk {
  id : String.string;
  createdAt : Date;
  updatedAt : Date;
  name : String.string;
  category : IncomeCategory.t;
  amount : number;
  frequency : Frequency.t;
  bankAccountId : option String.string;
  startDate : Date;
  endDate : option Date;
  notes : option String.string
}.
End Income.

Module Expense.
Record t : Type := mk {
  id : String.string;
  createdAt : Date;
  updatedAt : Date;
  name : String.string;
  category : ExpenseCategory.t;
  amount : number;
  frequency : Frequency.t;
  startDate : Date;
  endDate : option Date;
  notes : option String.string
}.
End Expense.

Module Loan.
Record t : Type := mk {
  id : String.string;
  createdAt : Date;
  updatedAt : Date;
  name : String.string;
  type : LoanType.t;
  principal : number;
  interestRate : number;
  startDate : Date;
  tenureMonths : Z;
  emi : number;
  notes : option String.string
}.
End Loan.

(** ** The debugging utilities: [lib/utils/debugUtils.ts], in the source tree
    as [unnamed/part_002] *)

(** The objects [debugNetWorthCalculation] returns. *)

Module AssetDetail.
Record t : Type := mk {
  name : String.string;
  category : AssetCategory.t;
  value : number;
  formatted : String.string
}.
End AssetDetail.

Module BankAccountDetail.
Record t : Type := mk {
  name : String.string;
  accountType : BankAccountType.t;
  isAsset : bool;
  balance : number;
  formatted : String.string
}.
End BankAccountDetail.

Module LoanDetail.
Record t : Type := mk {
  name : String.string;
  type : LoanType.t;
  principal : number;
  formatted : String.string
}.
End LoanDetail.

(** One part of the breakdown: a total, its display, and the items it sums. *)
Module Part.
Record t (detail : Type) : Type := mk {
  total : number;
  formatted : String.string;
  details : list detail
}.
Arguments mk {detail}.
Arguments total {detail}.
Arguments formatted {detail}.
Arguments details {detail}.
End Part.

Module Summary.
Record t : Type := mk {
  totalAssets : number;
  totalAssetsFormatted : String.string;
  totalLiabilities : number;
  totalLiabilitiesFormatted : String.string;
  netWorth : number;
  netWorthFormatted : String.string
}.
End Summary.

Module Breakdown.
Record t : Type := mk {
  assets : Part.t AssetDetail.t;
  bankAccounts : Part.t BankAccountDetail.t;
  liabilities : Part.t LoanDetail.t;
  summary : Summary.t
}.
End Breakdown.

(** The objects [debugForecastCalculation] returns. *)

Module ForecastPoint.
Record t : Type := mk {
  year : Z;
  netWorth : number;
  netWorthFormatted : String.string;
  yearlyGrowth : number;
  yearlySavings : number
}.
End ForecastPoint.

Module ForecastDebug.
Record t : Type := mk {
  initialNetWorth : number;
  monthlyIncome : number;
  monthlyExpenses : number;
  monthlyEMIs : number;
  availableIncome : number;
  monthlySavings : number;
  yearlySavings : number;
  savingsRate : number;
  investmentReturn : number;
  inflationRate : number;
  projection : list ForecastPoint.t
}.
End ForecastDebug.

Section DebugUtils.

(** [formatCurrency] of [src/lib/formatters/currency.ts] formats through
    [Intl.NumberFormat]; it is taken as given.  What the two functions write
    to the console is not part of their result and is left out. *)
Variable formatCurrency : number -> String.string.

Definition debugNetWorthCalculation
  (assets : list Asset.t) (bankAccounts : list BankAccount.t) (loans : list Loan.t)
  : Breakdown.t :=
  let assetsTotal :=
    fold_left (fun sum asset => (sum + Asset.currentValue asset)%num) assets (Fin 0) in
  let assetBankAccounts := filter (fun account => BankAccount.isAsset account) bankAccounts in
  let bankAccountsTotal :=
    fold_left (fun sum account => (sum + BankAccount.balance account)%num)
      assetBankAccounts (Fin 0) in
  let liabilitiesTotal :=
    fold_left (fun sum loan => (sum + Loan.principal loan)%num) loans (Fin 0) in
  let totalAssets := (assetsTotal + bankAccountsTotal)%num in
  let netWorth := (totalAssets - liabilitiesTotal)%num in
  Breakdown.mk
    (Part.mk assetsTotal (formatCurrency assetsTotal)
       (map (fun asset =>
               AssetDetail.mk (Asset.name asset) (Asset.category asset)
                 (Asset.currentValue asset) (formatCurrency (Asset.currentValue asset)))
          assets))
    (Part.mk bankAccountsTotal (formatCurrency bankAccountsTotal)
       (map (fun account =>
               BankAccountDetail.mk (BankAccount.name account)
                 (BankAccount.accountType account) (BankAccount.isAsset account)
                 (BankAccount.balance account) (formatCurrency (BankAccount.balance account)))
          assetBankAccounts))
    (Part.mk liabilitiesTotal (formatCurrency liabilitiesTotal)
       (map (fun loan =>
               LoanDetail.mk (Loan.name loan) (Loan.type loan) (Loan.principal loan)
                 (formatCurrency (Loan.principal loan)))
          loans))
    (Summary.mk totalAssets (formatCurrency totalAssets)
       liabilitiesTotal (formatCurrency liabilitiesTotal)
       netWorth (formatCurrency netWorth)).

Section ForecastLoop.

Variables investmentReturn yearlySavings : number.
Variable years : Z.

(** The body of [for (let year = 0; year <= Math.min(5, years); year++)]:
    the points pushed from [year] on, [netWorth] being the carried value,
    which is advanced only while [year < years]. *)
Fixpoint forecast_loop (fuel : nat) (year : Z) (netWorth : number)
  : list ForecastPoint.t :=
  match fuel with
  | O => []
  | S fuel' =>
      if (year <=? Z.min 5 years)%Z then
        ForecastPoint.mk
          year
          (Math_round (netWorth * Fin 100) / Fin 100)%num
          (formatCurrency netWorth)
          (if (year >? 0)%Z then Math_round (netWorth * investmentReturn / Fin 100)%num
           else Fin 0)
          (if (year >? 0)%Z then yearlySavings else Fin 0)
        :: forecast_loop fuel' (year + 1)%Z
             (if (year <? years)%Z
              then (netWorth * (Fin 1 + investmentReturn / Fin 100) + yearlySavings)%num
              else netWorth)
      else []
  end.

End ForecastLoop.

Definition debugForecastCalculation
  (initialNetWorth monthlyIncome monthlyExpenses monthlyEMIs
   savingsRate investmentReturn inflationRate : number) (years : Z)
  : ForecastDebug.t :=
  let availableIncome := (monthlyIncome - monthlyExpenses - monthlyEMIs)%num in
  let monthlySavings :=
    if (availableIncome >? Fin 0)%num
    then (availableIncome * savingsRate / Fin 100)%num
    else Fin 0 in
  let yearlySavings := (monthlySavings * Fin 12)%num in
  let netWorth := initialNetWorth in
  let projection :=
    forecast_loop investmentReturn yearlySavings years
      (Z.to_nat (Z.min 5 years + 1)) 0%Z netWorth in
  ForecastDebug.mk
    initialNetWorth
    monthlyIncome
    monthlyExpenses
    monthlyEMIs
    availableIncome
    monthlySavings
    yearlySavings
    savingsRate
    investmentReturn
    inflationRate
    projection.

End DebugUtils.

(** ** [src/lib/utils/bankAccountUtils.ts] *)

(** [calculateBankAccountGrowth]: [None] is a missing account, for which
    [bankAccount?.balance || 0] is 0.  The one caller asks for 1 year; [years]
    is an integer here as elsewhere. *)
Definition calculateBankAccountGrowth (bankAccount : option BankAccount.t) (years : Z)
  : number :=
  match bankAccount with
  | None => Fin 0
  | Some bankAccount =>
      if (years <=? 0)%Z then or_else (BankAccount.balance bankAccount) (Fin 0)
      else
        let principal := BankAccount.balance bankAccount in
        let rate := (or_else (BankAccount.interestRate bankAccount) (Fin 0) / Fin 100)%num in
        let compoundingPerYear := 4%Z in
        let finalAmount :=
          (principal *
           Math_pow (Fin 1 + rate / of_Z compoundingPerYear) (compoundingPerYear * years))%num in
        finalAmount
  end.

(** ** The pages *)

(** The forecast page: the component [Forecast], in the source tree as the
    second document of [unnamed/part_005]. *)

Module InflationPoint.
Record t : Type := mk {
  year : Z;
  netWorth : number;
  netWorthAfterInflation : number
}.
End InflationPoint.

Module Forecast.

(** [generateProjection]: the list it hands to [setProjectionData]. *)
Definition generateProjection
  (initialNetWorth monthlyIncome monthlyExpenses monthlyEMIs : number) (years : Z)
  (savingsRate inflationRate investmentReturn : number) : list InflationPoint.t :=
  let availableIncome := (monthlyIncome - monthlyExpenses - monthlyEMIs)%num in
  let monthlySavings :=
    if (availableIncome >? Fin 0)%num
    then (availableIncome * savingsRate / Fin 100)%num
    else Fin 0 in
  let yearlySavings := (monthlySavings * Fin 12)%num in
  let projection :=
    generateWealthProjection initialNetWorth yearlySavings investmentReturn years in
  let projectionWithInflation :=
    map (fun point =>
           let inflationFactor :=
             Math_pow (Fin 1 + inflationRate / Fin 100) (year point) in
           InflationPoint.mk (year point) (netWorth point)
             (netWorth point / inflationFactor)%num)
      projection in
  projectionWithInflation.

End Forecast.

(** The income page: [src/pages/Income.tsx]. *)

Module IncomePage.

(** [calculateMonthlyIncome].  The [default] case of its [switch] is out of
    reach of a [Frequency]. *)
Definition calculateMonthlyIncome (incomes : list Income.t) : number :=
  fold_left
    (fun total income =>
       match Income.frequency income with
       | Frequency.ONE_TIME => total
       | Frequency.WEEKLY =>
           let monthlyAmount := (Income.amount income * Fin 4.33)%num in
           (total + monthlyAmount)%num
       | Frequency.MONTHLY =>
           let monthlyAmount := Income.amount income in
           (total + monthlyAmount)%num
       | Frequency.QUARTERLY =>
           let monthlyAmount := (Income.amount income / Fin 3)%num in
           (total + monthlyAmount)%num
       | Frequency.HALF_YEARLY =>
           let monthlyAmount := (Income.amount income / Fin 6)%num in
           (total + monthlyAmount)%num
       | Frequency.YEARLY =>
           let monthlyAmount := (Income.amount income / Fin 12)%num in
           (total + monthlyAmount)%num
       end)
    incomes (Fin 0).

End IncomePage.

(** The dashboard: the component [Dashboard], in the source tree as the
    first document of [unnamed/part_006]. *)

Module Dashboard.

(** [monthlyIncomeTotal] of [calculateDashboardData]: the incomes of monthly
    frequency only. *)
Definition monthlyIncomeTotal (incomes : list Income.t) : number :=
  fold_left (fun sum income => (sum + Income.amount income)%num)
    (filter (fun income =>
               match Income.frequency income with
               | Frequency.MONTHLY => true
               | _ => false
               end)
       incomes)
    (Fin 0).

End Dashboard.

(** The expenses page: the component [Expenses], in the source tree as the
    second document of [unnamed/part_006]. *)

Module ExpensesPage.

Definition calculateMonthlyExpenses (expenses : list Expense.t) : number :=
  fold_left
    (fun total expense =>
       match Expense.frequency expense with
       | Frequency.ONE_TIME => total
       | Frequency.WEEKLY =>
           let monthlyAmount := (Expense.amount expense * Fin 4.33)%num in
           (total + monthlyAmount)%num
       | Frequency.MONTHLY =>
           let monthlyAmount := Expense.amount expense in
           (total + monthlyAmount)%num
       | Frequency.QUARTERLY =>
           let monthlyAmount := (Expense.amount expense / Fin 3)%num in
           (total + monthlyAmount)%num
       | Frequency.HALF_YEARLY =>
           let monthlyAmount := (Expense.amount expense / Fin 6)%num in
           (total + monthlyAmount)%num
       | Frequency.YEARLY =>
           let monthlyAmount := (Expense.amount expense / Fin 12)%num in
           (total + monthlyAmount)%num
       end)
    expenses (Fin 0).

(** The object [categoryTotals], one number for each category. *)
Definition CategoryTotals : Type := ExpenseCategory.t -> number.

Definition category_eqb (a b : ExpenseCategory.t) : bool :=
  match a, b with
  | ExpenseCategory.HOUSING, ExpenseCategory.HOUSING
  | ExpenseCategory.TRANSPORTATION, ExpenseCategory.TRANSPORTATION
  | ExpenseCategory.FOOD, ExpenseCategory.FOOD
  | ExpenseCategory.UTILITIES, ExpenseCategory.UTILITIES
  | ExpenseCategory.INSURANCE, ExpenseCategory.INSURANCE
  | ExpenseCategory.HEALTHCARE, ExpenseCategory.HEALTHCARE
  | ExpenseCategory.ENTERTAINMENT, ExpenseCategory.ENTERTAINMENT
  | ExpenseCategory.EDUCATION, ExpenseCategory.EDUCATION
  | ExpenseCategory.PERSONAL, ExpenseCategory.PERSONAL
  | ExpenseCategory.DEBT, ExpenseCategory.DEBT
  | ExpenseCategory.OTHER, ExpenseCategory.OTHER => true
  | _, _ => false
  end.

(** [categoryTotals[category] += amount]. *)
Definition add_to (categoryTotals : CategoryTotals) (category : ExpenseCategory.t)
  (amount : number) : CategoryTotals :=
  fun c => if category_eqb c category then (categoryTotals c + amount)%num
           else categoryTotals c.

Definition calculateExpensesByCategory (expenses : list Expense.t) : CategoryTotals :=
  let categoryTotals : CategoryTotals := fun _ => Fin 0 in
  fold_left
    (fun categoryTotals expense =>
       match Expense.frequency expense with
       | Frequency.MONTHLY =>
           add_to categoryTotals (Expense.category expense) (Expense.amount expense)
       | Frequency.WEEKLY =>
           add_to categoryTotals (Expense.category expense)
             (Expense.amount expense * Fin 4.33)%num
       | Frequency.QUARTERLY =>
           add_to categoryTotals (Expense.category expense)
             (Expense.amount expense / Fin 3)%num
       | Frequency.HALF_YEARLY =>
           add_to categoryTotals (Expense.category expense)
             (Expense.amount expense / Fin 6)%num
       | Frequency.YEARLY =>
           add_to categoryTotals (Expense.category expense)
             (Expense.amount expense / Fin 12)%num
       | Frequency.ONE_TIME => categoryTotals
       end)
    expenses categoryTotals.

End ExpensesPage.

(** * Auxiliary definitions

    The quantities the properties are stated with: the value of a finite
    number, the states the two loops carry from one iteration to the next, and
    the rational values of the formulas at finite arguments. *)

Local Open Scope Q_scope.

(** [x] is finite and denotes the rational [q]. *)
Definition value (x : number) (q : Q) : Prop :=
  match x with
  | Fin p => p == q
  | _ => False
  end.

(** Numbers that denote the same value: the same special value, or finite
    values equal as rationals. *)
Definition same (x y : number) : Prop :=
  match x, y with
  | NaN, NaN => True
  | Infinity a, Infinity b => a = b
  | Fin p, Fin q => p == q
  | _, _ => False
  end.

(** The rational that [to_cents] returns at a finite argument of value [q]. *)
Definition cents (q : Q) : Q := Qred (inject_Z (Qfloor (q * 100 + (1 # 2))) / 100).

(** The net worth that [generateWealthProjection] carries into the [i]-th
    iteration after the current one: the unrounded recurrence applied [i]
    times. *)
Fixpoint carried (yearlySavings growthRate : number) (i : nat) (currentNetWorth : number)
  : number :=
  match i with
  | O => currentNetWorth
  | S j =>
      carried yearlySavings growthRate j
        (currentNetWorth * (Fin 1 + growthRate / Fin 100) + yearlySavings)%num
  end.

(** The same recurrence on rationals. *)
Definition next_worth (yearlySavings growthRate x : Q) : Q :=
  x * (1 + growthRate / 100) + yearlySavings.

Fixpoint carried_q (yearlySavings growthRate : Q) (i : nat) (x : Q) : Q :=
  match i with
  | O => x
  | S j => carried_q yearlySavings growthRate j (next_worth yearlySavings growthRate x)
  end.

(** The unrounded payment: principal [P], annual rate [r] percent, [n] months. *)
Definition emi_q (P r : Q) (n : Z) : Q :=
  P * (r / 100 / 12) * (1 + r / 100 / 12) ^ n / ((1 + r / 100 / 12) ^ n - 1).

(** The balance that [generateAmortizationSchedule] carries into the [i]-th
    iteration after the current one. *)
Fixpoint balance (monthlyRate exactEmi : number) (i : nat) (remainingPrincipal : number)
  : number :=
  match i with
  | O => remainingPrincipal
  | S j =>
      balance monthlyRate exactEmi j
        (remainingPrincipal - (exactEmi - remainingPrincipal * monthlyRate))%num
  end.

(** The unrounded balance after [i] payments of [E] at the monthly rate [m]. *)
Fixpoint balance_q (m E : Q) (i : nat) (b : Q) : Q :=
  match i with
  | O => b
  | S j => balance_q m E j (b - (E - b * m))
  end.

(** The total the repository's tests take of a schedule:
    [schedule.reduce((sum, month) => sum + month.principalPayment, 0)]. *)
Definition totalPrincipal (schedule : list ScheduleRow) : number :=
  fold_left (fun sum row => (sum + principalPayment row)%num) schedule (Fin 0).

(** What a property may ask of [Math.log]: at the argument [x] its result is
    finite and lies between [lo] and [hi]. *)
Definition log_between (Math_log : number -> number) (x : number) (lo hi : Q) : Prop :=
  exists l : Q, value (Math_log x) l /\ lo <= l /\ l <= hi.

(** Placeholders for [nth] beyond the end of a schedule or a projection. *)
Definition no_row : ScheduleRow := mkScheduleRow 0 NaN NaN NaN NaN.
Definition no_point : ProjectionPoint := mkProjectionPoint 0 NaN.

(** The factor by which a monthly contribution grows over [N] months at the
    annual rate [r] percent: the sum of the [N] monthly growth factors. *)
Definition annuity_q (r : Q) (N : Z) : Q :=
  ((1 + r / 100 / 12) ^ N - 1) / (r / 100 / 12).

(** The unrounded future value of [calculateInvestmentGrowth]. *)
Definition growth_q (I c r : Q) (N : Z) : Q :=
  I * (1 + r / 100 / 12) ^ N + c * ((1 + r / 100 / 12) ^ N - 1) / (r / 100 / 12).

(** The sum of the discount factors [1/x + 1/x^2 + ... + 1/x^k]: the
    payment is the principal over this sum at [x = 1 + monthly rate]. *)
Fixpoint discount_q (x : Q) (k : nat) : Q :=
  match k with
  | O => 0
  | S j => (discount_q x j + 1) / x
  end.

(** Incomes that the dashboard and the income page count alike. *)
Definition monthly_or_one_time (income : Income.t) : Prop :=
  Income.frequency income = Frequency.MONTHLY \/ Income.frequency income = Frequency.ONE_TIME.

Definition nonnegative_amount (income : Income.t) : Prop :=
  exists q : Q, Income.amount income = Fin q /\ 0 <= q.

Definition finite_amount (expense : Expense.t) : Prop :=
  exists q : Q, Expense.amount expense = Fin q.

(** The keys of [categoryTotals], in the order of the source. *)
Definition categories : list ExpenseCategory.t :=
  [ ExpenseCategory.HOUSING; ExpenseCategory.TRANSPORTATION; ExpenseCategory.FOOD;
    ExpenseCategory.UTILITIES; ExpenseCategory.INSURANCE; ExpenseCategory.HEALTHCARE;
    ExpenseCategory.ENTERTAINMENT; ExpenseCategory.EDUCATION; ExpenseCategory.PERSONAL;
    ExpenseCategory.DEBT; ExpenseCategory.OTHER ].

(** The total of [categoryTotals] over all its keys. *)
Definition categoriesTotal (categoryTotals : ExpensesPage.CategoryTotals) : number :=
  fold_left (fun sum category => (sum + categoryTotals category)%num) categories (Fin 0).

(** The same total on rationals. *)
Definition categories_q (v : ExpenseCategory.t -> Q) : Q :=
  fold_left (fun sum category => sum + v category) categories 0.

(** Sample records, for the instances of the properties below. *)
Definition example_account (balance interestRate : number) (isAsset : bool) : BankAccount.t :=
  BankAccount.mk "953e81da"%string 0%Z 0%Z "Axis"%string "XXXXXXXX"%string
    BankAccountType.SAVINGS balance interestRate isAsset None.

Definition example_income (amount : number) (frequency : Frequency.t) : Income.t :=
  Income.mk "14a37028"%string 0%Z 0%Z "Salary"%string IncomeCategory.SALARY
    amount frequency None 0%Z None None.

Definition example_expense (category : ExpenseCategory.t) (amount : number)
  (frequency : Frequency.t) : Expense.t :=
  Expense.mk "7c1f5b2e"%string 0%Z 0%Z "Expense"%string category
    amount frequency 0%Z None None.

Definition example_loan (principal : number) : Loan.t :=
  Loan.mk "6fe24266"%string 0%Z 0%Z "House"%string LoanType.HOME
    principal (Fin 8.5) 0%Z 300%Z (Fin 80522.71) None.

Definition no_inflation_point : InflationPoint.t := InflationPoint.mk 0 NaN NaN.

(** * Properties *)

(** ** The value of the number operations at finite arguments *)

Lemma is_zero_false (q : Q) : ~ q == 0 -> is_zero q = false.
Proof.
  intros H. unfold is_zero.
  destruct (Qeq_bool q 0) eqn:E; [ | reflexivity ].
  apply Qeq_bool_iff in E. contradiction.
Qed.

Lemma is_zero_true (q : Q) : q == 0 -> is_zero q = true.
Proof. intros H. unfold is_zero. now apply Qeq_bool_iff. Qed.

Lemma value_Fin (q : Q) : value (Fin q) q.
Proof. cbn [value]. reflexivity. Qed.

Lemma value_fin (p q : Q) : p == q -> value (fin p) q.
Proof. intros H. cbn [value fin]. rewrite Qred_correct. exact H. Qed.

Lemma value_of_Z (z : Z) : value (of_Z z) (inject_Z z).
Proof. cbn [value of_Z]. reflexivity. Qed.

Lemma value_add (x y : number) (p q : Q) :
  value x p -> value y q -> value (x + y) (p + q).
Proof.
  destruct x, y; cbn [value add fin]; try contradiction.
  intros Hx Hy. rewrite Qred_correct, Hx, Hy. reflexivity.
Qed.

Lemma value_sub (x y : number) (p q : Q) :
  value x p -> value y q -> value (x - y) (p - q).
Proof.
  destruct x, y; cbn [value sub fin]; try contradiction.
  intros Hx Hy. rewrite Qred_correct, Hx, Hy. reflexivity.
Qed.

Lemma value_mul (x y : number) (p q : Q) :
  value x p -> value y q -> value (x * y) (p * q).
Proof.
  destruct x, y; cbn [value mul fin]; try contradiction.
  intros Hx Hy. rewrite Qred_correct, Hx, Hy. reflexivity.
Qed.

Lemma value_div (x y : number) (p q : Q) :
  value x p -> value y q -> ~ q == 0 -> value (x / y) (p / q).
Proof.
  destruct x as [ | | p' ], y as [ | | q' ]; cbn [value div]; try contradiction.
  intros Hx Hy Hq.
  rewrite is_zero_false by (rewrite Hy; exact Hq).
  cbn [value fin]. rewrite Qred_correct, Hx, Hy. reflexivity.
Qed.

(** 0/0 is NaN. *)
Lemma div_zero_zero (x y : number) (p q : Q) :
  value x p -> value y q -> p == 0 -> q == 0 -> (x / y)%num = NaN.
Proof.
  destruct x as [ | | p' ], y as [ | | q' ]; cbn [value div]; try contradiction.
  intros Hx Hy Hp Hq.
  rewrite (is_zero_true q') by (rewrite Hy; exact Hq).
  rewrite (is_zero_true p') by (rewrite Hx; exact Hp).
  reflexivity.
Qed.

Lemma value_pow (x : number) (q : Q) (n : Z) :
  value x q -> (0 <= n)%Z -> value (Math_pow x n) (q ^ n).
Proof.
  destruct x as [ | | p ]; cbn [value]; try contradiction.
  intros Hx Hn. unfold Math_pow.
  destruct (Z.eqb_spec n 0) as [-> | Hne]; [ cbn [value]; reflexivity | ].
  replace (n <? 0)%Z with false by (symmetry; apply Z.ltb_ge; exact Hn).
  rewrite andb_false_r. apply value_fin. rewrite Hx. reflexivity.
Qed.

Lemma cents_spec (q : Q) : cents q == inject_Z (Qfloor (q * 100 + (1 # 2))) / 100.
Proof. unfold cents. apply Qred_correct. Qed.

Lemma cents_comp (p q : Q) : p == q -> cents p = cents q.
Proof.
  intros H. unfold cents.
  replace (Qfloor (p * 100 + (1 # 2))) with (Qfloor (q * 100 + (1 # 2))); [ reflexivity | ].
  apply Qfloor_comp. rewrite H. reflexivity.
Qed.

(** [to_cents] at a finite argument: a canonical result, the same for every
    representation of the argument's value. *)
Lemma to_cents_value (x : number) (q : Q) : value x q -> to_cents x = Fin (cents q).
Proof.
  destruct x as [ | | p ]; cbn [value]; try contradiction.
  intros Hx. unfold to_cents, cents.
  cbn [mul fin Math_round of_Z div].
  change (is_zero 100) with false. cbn iota. unfold fin.
  replace (Qfloor (Qred (p * 100) + (1 # 2))) with (Qfloor (q * 100 + (1 # 2)));
    [ reflexivity | ].
  apply Qfloor_comp. rewrite Qred_correct, Hx. reflexivity.
Qed.

Lemma to_cents_Fin (q : Q) : to_cents (Fin q) = Fin (cents q).
Proof. apply to_cents_value, value_Fin. Qed.

Lemma value_to_cents (x : number) (q : Q) : value x q -> value (to_cents x) (cents q).
Proof. intros H. rewrite (to_cents_value x q H). apply value_Fin. Qed.

Lemma leb_value (x y : number) (p q : Q) :
  value x p -> value y q -> p <= q -> (x <=? y)%num = true.
Proof.
  destruct x, y; cbn [value leb]; try contradiction.
  intros Hx Hy H. apply Qle_bool_iff. rewrite Hx, Hy. exact H.
Qed.

Lemma leb_value_false (x y : number) (p q : Q) :
  value x p -> value y q -> q < p -> (x <=? y)%num = false.
Proof.
  destruct x as [ | | p' ], y as [ | | q' ]; cbn [value leb]; try contradiction.
  intros Hx Hy H. destruct (Qle_bool p' q') eqn:E; [ | reflexivity ].
  apply Qle_bool_iff in E. rewrite Hx, Hy in E. lra.
Qed.

Lemma leb_Fin (p q : Q) : p <= q -> (Fin p <=? Fin q)%num = true.
Proof. apply leb_value; apply value_Fin. Qed.

Lemma ltb_Fin (p q : Q) : p < q -> (Fin p <? Fin q)%num = true.
Proof.
  intros H. cbn [ltb]. destruct (Qle_bool q p) eqn:E; [ | reflexivity ].
  apply Qle_bool_iff in E. lra.
Qed.

(** The value of an expression over finite numbers, read off its syntax.  A
    divisor that is a constant is checked not to be zero; for any other
    divisor that is left as a goal. *)
Ltac nonzero_constant := let H := fresh in intros H; vm_compute in H; discriminate H.

Ltac value_of :=
  lazymatch goal with
  | |- value (Fin _) _ => apply value_Fin
  | |- value (of_Z _) _ => apply value_of_Z
  | |- value (add _ _) _ => apply value_add; value_of
  | |- value (sub _ _) _ => apply value_sub; value_of
  | |- value (mul _ _) _ => apply value_mul; value_of
  | |- value (div _ _) _ =>
      apply value_div; [ value_of | value_of | first [ nonzero_constant | idtac ] ]
  | |- value (to_cents _) _ => apply value_to_cents; value_of
  | |- value (Math_pow _ _) _ =>
      first [ eassumption | apply value_pow; [ value_of | lia ] ]
  | |- value _ _ => eassumption
  end.

(** Linear arithmetic over [Q], the divisions by the constants 100 and 12 of
    the code read as multiplications. *)
Ltac qlra :=
  unfold Qdiv in *;
  change (/ 100) with (1 # 100) in *;
  change (/ 12) with (1 # 12) in *;
  lra.

(** A closed comparison of rationals or integers, by evaluation. *)
Ltac by_evaluation := vm_compute; first [ reflexivity | discriminate ].

(** The element at a given index of a closed list, by evaluation. *)
Ltac nth_by_evaluation := vm_compute; reflexivity.

Lemma inject_Z_le (a b : Z) : (a <= b)%Z -> inject_Z a <= inject_Z b.
Proof. intros H. rewrite <- Zle_Qle. exact H. Qed.

Lemma cents_le (p q : Q) : p <= q -> cents p <= cents q.
Proof.
  intros H. rewrite !cents_spec.
  assert (Hf : (Qfloor (p * 100 + (1 # 2)) <= Qfloor (q * 100 + (1 # 2)))%Z)
    by (apply Qfloor_resp_le; lra).
  apply inject_Z_le in Hf.
  unfold Qdiv. apply Qmult_le_compat_r; [ exact Hf | ].
  discriminate.
Qed.

(** A step of at least one cent survives the rounding. *)
Lemma cents_lt (p q : Q) : p + (1 # 100) <= q -> cents p < cents q.
Proof.
  intros H. rewrite !cents_spec.
  assert (Hf : (Qfloor (p * 100 + (1 # 2)) + 1 <= Qfloor (q * 100 + (1 # 2)))%Z).
  { replace (Qfloor (p * 100 + (1 # 2)) + 1)%Z
      with (Qfloor (inject_Z (Qfloor (p * 100 + (1 # 2)) + 1))) by apply Qfloor_Z.
    apply Qfloor_resp_le.
    rewrite inject_Z_plus.
    pose proof (Qfloor_le (p * 100 + (1 # 2))) as Hle.
    change (inject_Z 1) with 1. lra. }
  apply inject_Z_le in Hf. rewrite inject_Z_plus in Hf.
  change (inject_Z 1) with 1 in Hf.
  set (a := inject_Z (Qfloor (p * 100 + (1 # 2)))) in *.
  set (b := inject_Z (Qfloor (q * 100 + (1 # 2)))) in *.
  qlra.
Qed.

(** Rounding to cents moves a value by at most half a cent. *)
Lemma cents_error (q : Q) : q - (1 # 200) <= cents q /\ cents q <= q + (1 # 200).
Proof.
  rewrite cents_spec.
  pose proof (Qfloor_le (q * 100 + (1 # 2))) as Hlo.
  pose proof (Qlt_floor (q * 100 + (1 # 2))) as Hhi.
  rewrite inject_Z_plus in Hhi. change (inject_Z 1) with 1 in Hhi.
  set (f := inject_Z (Qfloor (q * 100 + (1 # 2)))) in *.
  split; qlra.
Qed.

(** ** The amortization loop *)

Section AmortizationFacts.

Variable tenureMonths : Z.
Variables monthlyRate exactEmi : number.

Local Abbreviation loop := (schedule_loop tenureMonths monthlyRate exactEmi).

(** The loop leaves by its guard, never by want of fuel: any fuel that covers
    the months left gives the same rows. *)
Lemma schedule_loop_fuel (fuel fuel' : nat) (m : Z) (rem : number) :
  (Z.to_nat (tenureMonths + 1 - m) <= fuel)%nat ->
  (Z.to_nat (tenureMonths + 1 - m) <= fuel')%nat ->
  loop fuel m rem = loop fuel' m rem.
Proof.
  revert fuel' m rem.
  induction fuel as [ | fuel IH ]; intros fuel' m rem H H'.
  - destruct fuel' as [ | fuel' ]; [ reflexivity | ].
    cbn [schedule_loop]. destruct (Z.leb_spec m tenureMonths); [ lia | reflexivity ].
  - destruct fuel' as [ | fuel' ]; cbn [schedule_loop].
    + destruct (Z.leb_spec m tenureMonths); [ lia | reflexivity ].
    + destruct (Z.leb_spec m tenureMonths); [ | reflexivity ].
      destruct (m =? tenureMonths)%Z; f_equal; apply IH; lia.
Qed.

(** Past the last month the loop pushes nothing. *)
Lemma schedule_loop_done (fuel : nat) (m : Z) (rem : number) :
  (tenureMonths < m)%Z -> loop fuel m rem = [].
Proof.
  intros Hm. destruct fuel as [ | fuel ]; [ reflexivity | ].
  cbn [schedule_loop]. destruct (Z.leb_spec m tenureMonths); [ lia | reflexivity ].
Qed.

(** One iteration of the loop, the rounding idiom read as [to_cents]. *)
Lemma schedule_loop_step (fuel : nat) (m : Z) (rem : number) :
  (m <= tenureMonths)%Z ->
  loop (S fuel) m rem
  = if (m =? tenureMonths)%Z
    then mkScheduleRow m (to_cents (rem * monthlyRate + rem)) (to_cents rem)
           (to_cents (rem * monthlyRate)) (Fin 0)
         :: loop fuel (m + 1)%Z rem
    else mkScheduleRow m (to_cents exactEmi) (to_cents (exactEmi - rem * monthlyRate))
           (to_cents (rem * monthlyRate))
           (to_cents (rem - (exactEmi - rem * monthlyRate)))
         :: loop fuel (m + 1)%Z (rem - (exactEmi - rem * monthlyRate))%num.
Proof.
  intros Hm. cbn [schedule_loop].
  destruct (Z.leb_spec m tenureMonths); [ reflexivity | lia ].
Qed.

Lemma schedule_loop_length (fuel : nat) (m : Z) (rem : number) :
  (Z.to_nat (tenureMonths + 1 - m) <= fuel)%nat ->
  length (loop fuel m rem) = Z.to_nat (tenureMonths + 1 - m).
Proof.
  revert m rem.
  induction fuel as [ | fuel IH ]; intros m rem H.
  - cbn [schedule_loop length]. lia.
  - destruct (Z.le_gt_cases m tenureMonths) as [Hm | Hm].
    + rewrite schedule_loop_step by exact Hm.
      destruct (m =? tenureMonths)%Z; cbn [length]; rewrite IH by lia; lia.
    + rewrite schedule_loop_done by lia. cbn [length]. lia.
Qed.

(** The row of month [tenureMonths] reports a remaining principal of 0. *)
Lemma schedule_loop_final (fuel : nat) (m : Z) (rem : number) :
  (m <= tenureMonths)%Z ->
  (Z.to_nat (tenureMonths + 1 - m) <= fuel)%nat ->
  exists row,
    nth_error (loop fuel m rem) (Z.to_nat (tenureMonths - m)) = Some row /\
    month row = tenureMonths /\
    remainingPrincipal row = Fin 0.
Proof.
  revert m rem.
  induction fuel as [ | fuel IH ]; intros m rem Hm H.
  - lia.
  - rewrite schedule_loop_step by exact Hm.
    destruct (Z.eqb_spec m tenureMonths) as [-> | Hne].
    + rewrite Z.sub_diag. eexists. split; [ reflexivity | ]. split; reflexivity.
    + replace (Z.to_nat (tenureMonths - m)) with (S (Z.to_nat (tenureMonths - (m + 1)))) by lia.
      cbn [nth_error]. apply IH; lia.
Qed.

Local Abbreviation bal := (balance monthlyRate exactEmi).

(** What the row at index [i] reports, from the balance it starts with: the
    row of the last month is built from that balance alone. *)
Lemma schedule_loop_nth (fuel : nat) (m : Z) (rem : number) (i : nat) :
  (m + Z.of_nat i <= tenureMonths)%Z ->
  (Z.to_nat (tenureMonths + 1 - m) <= fuel)%nat ->
  exists row,
    nth_error (loop fuel m rem) i = Some row /\
    month row = (m + Z.of_nat i)%Z /\
    interestPayment row = to_cents (bal i rem * monthlyRate) /\
    principalPayment row =
      (if (m + Z.of_nat i =? tenureMonths)%Z
       then to_cents (bal i rem)
       else to_cents (exactEmi - bal i rem * monthlyRate)) /\
    emi row =
      (if (m + Z.of_nat i =? tenureMonths)%Z
       then to_cents (bal i rem * monthlyRate + bal i rem)
       else to_cents exactEmi) /\
    remainingPrincipal row =
      (if (m + Z.of_nat i =? tenureMonths)%Z
       then Fin 0
       else to_cents (bal (S i) rem)).
Proof.
  revert m rem i.
  induction fuel as [ | fuel IH ]; intros m rem i Hi H.
  - lia.
  - rewrite schedule_loop_step by lia.
    destruct i as [ | i ].
    + rewrite Z.add_0_r.
      destruct (m =? tenureMonths)%Z; eexists; (split; [ reflexivity | ]);
        repeat split; cbn [month]; lia.
    + destruct (Z.eqb_spec m tenureMonths) as [-> | Hne]; [ lia | ].
      cbn [nth_error].
      replace (m + Z.of_nat (S i))%Z with (m + 1 + Z.of_nat i)%Z by lia.
      set (rem' := (rem - (exactEmi - rem * monthlyRate))%num).
      change (bal (S (S i)) rem) with (bal (S i) rem').
      change (bal (S i) rem) with (bal i rem').
      apply (IH (m + 1)%Z); lia.
Qed.

End AmortizationFacts.

(** C1. For every principal, every annual rate (in particular every principal
    > 0 and rate > 0) and every integer tenureMonths >= 1,
    [generateAmortizationSchedule] returns exactly [tenureMonths] rows, and the
    last of them, the row of month [tenureMonths], reports a
    [remainingPrincipal] of exactly 0. *)
Theorem generateAmortizationSchedule_fully_amortizes
  (principal interestRate : number) (tenureMonths : Z) :
  (1 <= tenureMonths)%Z ->
  let schedule := generateAmortizationSchedule principal interestRate tenureMonths in
  length schedule = Z.to_nat tenureMonths /\
  exists row,
    nth_error schedule (Z.to_nat tenureMonths - 1) = Some row /\
    month row = tenureMonths /\
    remainingPrincipal row = Fin 0.
Proof.
  intros Hn schedule. subst schedule. unfold generateAmortizationSchedule. split.
  - rewrite schedule_loop_length by lia. f_equal. lia.
  - replace (Z.to_nat tenureMonths - 1)%nat with (Z.to_nat (tenureMonths - 1)) by lia.
    apply schedule_loop_final; lia.
Qed.

Lemma generateAmortizationSchedule_fully_amortizes_witness :
  let schedule := generateAmortizationSchedule (Fin 1000000) (Fin 8.5) 180 in
  length schedule = Z.to_nat 180 /\
  exists row,
    nth_error schedule (Z.to_nat 180 - 1) = Some row /\
    month row = 180%Z /\
    remainingPrincipal row = Fin 0.
Proof.
  apply (generateAmortizationSchedule_fully_amortizes (Fin 1000000) (Fin 8.5) 180).
  by_evaluation.
Defined.

(** ** Zero rate *)

(** [Math.pow(1 + 0/100/12, n)] is 1 at every integer [n]. *)
Lemma Math_pow_zero_rate (n : Z) :
  value (Math_pow (Fin 1 + Fin 0 / Fin 100 / Fin 12) n) 1.
Proof.
  change (Fin 1 + Fin 0 / Fin 100 / Fin 12)%num with (Fin 1).
  unfold Math_pow. destruct (n =? 0)%Z; [ apply value_Fin | ].
  change (is_zero 1) with false. cbn [andb].
  apply value_fin, Qpower_1.
Qed.

(** At a zero rate the payment formula is 0/0: [calculateEMI] has no separate
    case for it and returns NaN, for every finite principal and every tenure. *)
Lemma calculateEMI_zero_rate (principal : Q) (tenureMonths : Z) :
  calculateEMI (Fin principal) (Fin 0) tenureMonths = NaN.
Proof.
  unfold calculateEMI.
  pose proof (Math_pow_zero_rate tenureMonths) as Hpw.
  erewrite (div_zero_zero (Fin principal * _ * _) (_ - Fin 1));
    [ reflexivity | value_of | value_of | | ].
  - assert (E : 0 / 100 / 12 == 0) by reflexivity. rewrite E. ring.
  - ring.
Qed.

(** C2, at the input of the repository's test "should handle zero interest
    rate": [calculateEMI(100000, 0, 12)] is NaN, not 100000 / 12 = 8333.33. *)
Theorem calculateEMI_zero_rate_test_input :
  calculateEMI (Fin 100000) (Fin 0) 12 = NaN /\
  (calculateEMI (Fin 100000) (Fin 0) 12 === to_cents (Fin 100000 / of_Z 12))%num = false.
Proof. split; vm_compute; reflexivity. Qed.

(** At a zero rate the annuity term of [calculateInvestmentGrowth] is 0/0, with
    no separate case: the result is NaN for every finite initial amount and
    contribution and every number of years. *)
Lemma calculateInvestmentGrowth_zero_rate (initialAmount monthlyContribution : Q) (years : Z) :
  calculateInvestmentGrowth (Fin initialAmount) (Fin monthlyContribution) (Fin 0) years = NaN.
Proof.
  unfold calculateInvestmentGrowth.
  pose proof (Math_pow_zero_rate (years * 12)) as Hpw.
  erewrite (div_zero_zero (Fin monthlyContribution * _) _);
    [ | value_of | value_of | | ].
  - destruct (Fin initialAmount * _)%num; reflexivity.
  - ring.
  - reflexivity.
Qed.

(** C3, at a concrete zero-rate input: [calculateInvestmentGrowth(100000,
    5000, 0, 10)] is NaN, not 100000 + 5000 * 12 * 10 = 700000. *)
Theorem calculateInvestmentGrowth_zero_rate_input :
  calculateInvestmentGrowth (Fin 100000) (Fin 5000) (Fin 0) 10 = NaN /\
  (calculateInvestmentGrowth (Fin 100000) (Fin 5000) (Fin 0) 10
   === to_cents (Fin 100000 + Fin 5000 * Fin 12 * of_Z 10))%num = false.
Proof. split; vm_compute; reflexivity. Qed.

(** At a zero rate, with a target above the current amount, the annuity
    factor of [calculateMonthlySavingsForGoal] is 0/0 and the result NaN. *)
Lemma calculateMonthlySavingsForGoal_zero_rate (targetAmount currentAmount : Q) (yearsToGoal : Z) :
  currentAmount < targetAmount ->
  calculateMonthlySavingsForGoal (Fin targetAmount) (Fin currentAmount) yearsToGoal (Fin 0) = NaN.
Proof.
  intros Hlt. unfold calculateMonthlySavingsForGoal.
  pose proof (Math_pow_zero_rate (yearsToGoal * 12)) as Hpw.
  erewrite leb_value_false; [ | value_of | value_of | lra ].
  erewrite (div_zero_zero (_ - Fin 1) _); [ | value_of | value_of | | ].
  - destruct (Fin targetAmount - _)%num; reflexivity.
  - ring.
  - reflexivity.
Qed.

(** C4, at the input of the repository's test "should handle zero growth
    rate": [calculateMonthlySavingsForGoal(60000, 0, 5, 0)] is NaN, not
    60000 / (5 * 12) = 1000. *)
Theorem calculateMonthlySavingsForGoal_zero_rate_test_input :
  calculateMonthlySavingsForGoal (Fin 60000) (Fin 0) 5 (Fin 0) = NaN /\
  (calculateMonthlySavingsForGoal (Fin 60000) (Fin 0) 5 (Fin 0)
   === to_cents ((Fin 60000 - Fin 0) / (Fin 12 * of_Z 5)))%num = false.
Proof. split; vm_compute; reflexivity. Qed.

(** ** Zero years *)

Lemma monthly_rate_nonzero (r : Q) : ~ r == 0 -> ~ r / 100 / 12 == 0.
Proof.
  intros Hr E. apply Hr.
  assert (H : r == r / 100 / 12 * 1200) by field.
  rewrite H, E. reflexivity.
Qed.



(** ** The projection loop *)

Section ProjectionFacts.

Variables yearlySavings growthRate : number.
Variable years : Z.

Local Abbreviation loop := (projection_loop yearlySavings growthRate years).
Local Abbreviation carry := (carried yearlySavings growthRate).

Lemma projection_loop_fuel (fuel fuel' : nat) (y : Z) (x : number) :
  (Z.to_nat (years + 1 - y) <= fuel)%nat ->
  (Z.to_nat (years + 1 - y) <= fuel')%nat ->
  loop fuel y x = loop fuel' y x.
Proof.
  revert fuel' y x.
  induction fuel as [ | fuel IH ]; intros fuel' y x H H'.
  - destruct fuel' as [ | fuel' ]; [ reflexivity | ].
    cbn [projection_loop]. destruct (Z.leb_spec y years); [ lia | reflexivity ].
  - destruct fuel' as [ | fuel' ]; cbn [projection_loop].
    + destruct (Z.leb_spec y years); [ lia | reflexivity ].
    + destruct (Z.leb_spec y years); [ | reflexivity ].
      f_equal. apply IH; lia.
Qed.

Lemma projection_loop_length (fuel : nat) (y : Z) (x : number) :
  (Z.to_nat (years + 1 - y) <= fuel)%nat ->
  length (loop fuel y x) = Z.to_nat (years + 1 - y).
Proof.
  revert y x.
  induction fuel as [ | fuel IH ]; intros y x H; cbn [projection_loop].
  - cbn [length]. lia.
  - destruct (Z.leb_spec y years); cbn [length].
    + rewrite IH by lia. lia.
    + lia.
Qed.

(** The [i]-th point pushed from year [y] on: year [y + i], and the carried
    value rounded to two decimals. *)
Lemma projection_loop_nth (fuel : nat) (y : Z) (x : number) (i : nat) :
  (y + Z.of_nat i <= years)%Z ->
  (Z.to_nat (years + 1 - y) <= fuel)%nat ->
  nth_error (loop fuel y x) i
  = Some (mkProjectionPoint (y + Z.of_nat i) (to_cents (carry i x))).
Proof.
  revert y x i.
  induction fuel as [ | fuel IH ]; intros y x i Hi H.
  - lia.
  - cbn [projection_loop]. destruct (Z.leb_spec y years); [ | lia ].
    destruct i as [ | i ].
    + cbn [nth_error carried]. rewrite Z.add_0_r. reflexivity.
    + cbn [nth_error]. rewrite IH by lia.
      cbn [carried]. do 2 f_equal. lia.
Qed.

End ProjectionFacts.

Lemma generateWealthProjection_nth
  (initialNetWorth yearlySavings growthRate : number) (years : Z) (i : nat) (p : ProjectionPoint) :
  nth_error (generateWealthProjection initialNetWorth yearlySavings growthRate years) i = Some p ->
  p = mkProjectionPoint (Z.of_nat i)
        (to_cents (carried yearlySavings growthRate i initialNetWorth)).
Proof.
  intros Hp. unfold generateWealthProjection in Hp.
  assert (Hlen : (i < Z.to_nat (years + 1 - 0))%nat).
  { rewrite <- (projection_loop_length yearlySavings growthRate years
                  (Z.to_nat (years + 1)) 0 initialNetWorth) by lia.
    apply nth_error_Some. rewrite Hp. discriminate. }
  rewrite projection_loop_nth in Hp by lia.
  injection Hp as <-. reflexivity.
Qed.

(** C5, as the code has it.  For every initialNetWorth, yearlySavings and
    growthRate and every integer years >= 0, [generateWealthProjection]
    returns exactly years + 1 points, and the point of year 0 is
    initialNetWorth rounded to two decimals, with no growth applied. *)
Theorem generateWealthProjection_length_and_year0
  (initialNetWorth yearlySavings growthRate : number) (years : Z) :
  (0 <= years)%Z ->
  let projection := generateWealthProjection initialNetWorth yearlySavings growthRate years in
  length projection = Z.to_nat (years + 1) /\
  nth_error projection 0 = Some (mkProjectionPoint 0 (to_cents initialNetWorth)).
Proof.
  intros Hy projection. subst projection. unfold generateWealthProjection. split.
  - rewrite projection_loop_length by lia. f_equal. lia.
  - rewrite projection_loop_nth by lia. reflexivity.
Qed.

Lemma generateWealthProjection_length_and_year0_witness :
  let projection := generateWealthProjection (Fin 100000) (Fin 60000) (Fin 10) 5 in
  length projection = Z.to_nat (5 + 1) /\
  nth_error projection 0 = Some (mkProjectionPoint 0 (to_cents (Fin 100000))).
Proof.
  apply (generateWealthProjection_length_and_year0 (Fin 100000) (Fin 60000) (Fin 10) 5).
  by_evaluation.
Defined.

(** C5 as stated fails: the point of year 0 is not always initialNetWorth
    unchanged.  [generateWealthProjection(1234.567, 0, 0, 0)] reports 1234.57
    for year 0. *)
Lemma generateWealthProjection_year0_unchanged_counterexample :
  let projection := generateWealthProjection (Fin 1234.567) (Fin 0) (Fin 0) 0 in
  let p := nth 0 projection no_point in
  nth_error projection 0 = Some p /\
  (netWorth p === Fin 1234.57)%num = true /\
  (netWorth p === Fin 1234.567)%num = false.
Proof. repeat split; nth_by_evaluation. Qed.

(** *** Monotonicity *)

Section ProjectionMonotone.

Variables yearlySavings growthRate : Q.
Hypothesis growth_nonneg : 0 <= growthRate.

Local Abbreviation carry_q := (carried_q yearlySavings growthRate).

Lemma value_carried (i : nat) (x : number) (q : Q) :
  value x q ->
  value (carried (Fin yearlySavings) (Fin growthRate) i x) (carry_q i q).
Proof.
  revert x q. induction i as [ | i IH ]; intros x q Hx; [ exact Hx | ].
  cbn [carried carried_q]. apply IH. unfold next_worth. value_of.
Qed.

(** A gap of at least [d >= 0] between two carried values never shrinks. *)
Lemma carried_q_gap (d : Q) (i : nat) (x y : Q) :
  0 <= d -> x + d <= y -> carry_q i x + d <= carry_q i y.
Proof.
  intros Hd. revert x y.
  induction i as [ | i IH ]; intros x y Hxy; cbn [carried_q]; [ exact Hxy | ].
  apply IH. unfold next_worth.
  assert (0 <= (y - x - d) * (growthRate / 100)) by (apply Qmult_le_0_compat; qlra).
  assert (0 <= d * (growthRate / 100)) by (apply Qmult_le_0_compat; qlra).
  qlra.
Qed.

Lemma carried_q_step (i : nat) (x : Q) :
  0 <= x * growthRate / 100 + yearlySavings ->
  carry_q i x + (x * growthRate / 100 + yearlySavings) <= carry_q (S i) x.
Proof.
  intros Hd. cbn [carried_q]. apply carried_q_gap; [ exact Hd | ].
  unfold next_worth. qlra.
Qed.

End ProjectionMonotone.




(** ** Prepayment *)

Lemma monthly_rate_pos (r : Q) : 0 < r -> 0 < r / 100 / 12.
Proof. intros H. qlra. Qed.

Lemma growth_factor_gt_1 (r : Q) (n : Z) :
  0 < r -> (1 <= n)%Z -> 1 < (1 + r / 100 / 12) ^ n.
Proof.
  intros Hr Hn. apply Qpower_1_lt; [ | lia ].
  pose proof (monthly_rate_pos r Hr). lra.
Qed.

(** The value of the payment formula at a finite principal and a positive
    rate. *)
Lemma value_emi (x y : number) (P r : Q) (n : Z) :
  value x P -> value y r -> 0 < r -> (1 <= n)%Z ->
  value (x * (y / Fin 100 / Fin 12) * Math_pow (Fin 1 + y / Fin 100 / Fin 12) n /
         (Math_pow (Fin 1 + y / Fin 100 / Fin 12) n - Fin 1))%num
        (emi_q P r n).
Proof.
  intros Hx Hy Hr Hn. unfold emi_q.
  pose proof (growth_factor_gt_1 r n Hr Hn) as Hpw.
  value_of. lra.
Qed.

Lemma calculateEMI_value (x y : number) (P r : Q) (n : Z) :
  value x P -> value y r -> 0 < r -> (1 <= n)%Z ->
  calculateEMI x y n = Fin (cents (emi_q P r n)).
Proof.
  intros Hx Hy Hr Hn. unfold calculateEMI.
  apply (to_cents_value _ _ (value_emi x y P r n Hx Hy Hr Hn)).
Qed.

(** The payment is linear in the principal, with a factor above the monthly
    rate. *)
Lemma emi_q_diff (P d r : Q) (n : Z) :
  0 < r -> (1 <= n)%Z -> 0 <= d ->
  emi_q (P - d) r n + d * (r / 100 / 12) <= emi_q P r n.
Proof.
  intros Hr Hn Hd. unfold emi_q.
  pose proof (growth_factor_gt_1 r n Hr Hn) as Hpw.
  pose proof (monthly_rate_pos r Hr) as Hm.
  set (m := r / 100 / 12) in *. set (pw := (1 + m) ^ n) in *.
  assert (E : P * m * pw / (pw - 1) == (P - d) * m * pw / (pw - 1) + d * m * (pw / (pw - 1)))
    by (field; lra).
  rewrite E.
  assert (H1 : 1 <= pw / (pw - 1)) by (apply Qle_shift_div_l; lra).
  assert (H2 : 0 <= d * m) by (apply Qmult_le_0_compat; lra).
  assert (H3 : 0 <= d * m * (pw / (pw - 1) - 1)) by (apply Qmult_le_0_compat; lra).
  lra.
Qed.



(** The ceiling of a quotient above 11 is at least 12. *)
Lemma Math_ceil_quotient_ge_12 (x y : number) (p q : Q) :
  value x p -> value y q -> 0 < q -> 11 * q < p ->
  (Math_ceil (x / y) <? of_Z 12)%num = false.
Proof.
  intros Hx Hy Hq Hpq.
  destruct x as [ | | p' ], y as [ | | q' ]; cbn [value] in Hx, Hy; try contradiction.
  cbn [div]. rewrite is_zero_false by (rewrite Hy; lra).
  cbn [fin Math_ceil of_Z ltb].
  assert (H11 : 11 < Qred (p' / q')).
  { rewrite Qred_correct, Hx, Hy. apply Qlt_shift_div_l; lra. }
  pose proof (Qle_ceiling (Qred (p' / q'))) as Hc.
  assert (Hz : (11 < Qceiling (Qred (p' / q')))%Z).
  { rewrite Zlt_Qlt. change (inject_Z 11) with 11. lra. }
  assert (Hle : inject_Z 12 <= inject_Z (Qceiling (Qred (p' / q'))))
    by (apply inject_Z_le; lia).
  apply Qle_bool_iff in Hle. rewrite Hle. reflexivity.
Qed.


(** The two bounds asked of [Math.log] above can be met together. *)
Lemma log_between_example :
  exists Math_log : number -> number,
    let originalEMI := calculateEMI (Fin 100000) (Fin 12) 12 in
    let reducedPrincipal := (Fin 100000 - Fin 0.001)%num in
    let monthlyRate := (Fin 12 / Fin 100 / Fin 12)%num in
    log_between Math_log
      (originalEMI / (originalEMI - reducedPrincipal * monthlyRate))%num 0.1194 0.1195 /\
    log_between Math_log (Fin 1 + monthlyRate)%num 0.00995 0.009951.
Proof.
  exists (fun x => if (x === Fin 1.01)%num then Fin 0.00995033 else Fin 0.119404).
  split; [ exists 0.119404 | exists 0.00995033 ];
    (split; [ vm_compute; reflexivity | split; by_evaluation ]).
Qed.

(** C8, at a full-clearance input: [calculatePrepaymentImpact(100000, 10, 7,
    150000)] takes the branch [reducedPrincipal <= 0], and the interestSaved
    it returns, 100000 * 10 / 100 / 12 * 7 - 150000 = -144166.666..., is not
    rounded to two decimals, whatever [Math.log] is. *)
Theorem calculatePrepaymentImpact_full_clearance_interestSaved
  (Math_log : number -> number) :
  let impact :=
    calculatePrepaymentImpact Math_log (Fin 100000) (Fin 10) 7 (Fin 150000) in
  reducedEMI impact = Fin 0 /\
  reducedTenure impact = Fin 0 /\
  (interestSaved impact === Fin (100000 * 10 / 100 / 12 * 7 - 150000))%num = true /\
  (interestSaved impact === to_cents (interestSaved impact))%num = false.
Proof. repeat split; vm_compute; reflexivity. Qed.

(** ** The amortization schedule, row by row *)

Lemma value_balance (mm ee : number) (m E : Q) (i : nat) :
  value mm m -> value ee E ->
  forall (x : number) (b : Q),
    value x b -> value (balance mm ee i x) (balance_q m E i b).
Proof.
  intros Hm HE. induction i as [ | i IH ]; intros x b Hx; [ exact Hx | ].
  cbn [balance balance_q]. apply IH. value_of.
Qed.

Lemma balance_q_succ (m E : Q) (i : nat) (b : Q) :
  balance_q m E (S i) b = balance_q m E i b - (E - balance_q m E i b * m).
Proof.
  revert b. induction i as [ | i IH ]; intros b; [ reflexivity | ].
  change (balance_q m E (S (S i)) b) with (balance_q m E (S i) (b - (E - b * m))).
  rewrite IH. reflexivity.
Qed.

Section ScheduleMonotone.

Variables principal interestRate : Q.
Variable tenureMonths : Z.
Hypothesis principal_pos : 0 < principal.
Hypothesis rate_pos : 0 < interestRate.
Hypothesis tenure_pos : (1 <= tenureMonths)%Z.

Local Abbreviation m := (interestRate / 100 / 12).
Local Abbreviation pw := ((1 + interestRate / 100 / 12) ^ tenureMonths).
Local Abbreviation E := (emi_q principal interestRate tenureMonths).
Local Abbreviation B := (balance_q (interestRate / 100 / 12)
                           (emi_q principal interestRate tenureMonths)).

Local Ltac rate_facts :=
  pose proof (monthly_rate_pos interestRate rate_pos);
  pose proof (growth_factor_gt_1 interestRate tenureMonths rate_pos tenure_pos).

Lemma emi_q_scaled : E * (pw - 1) == principal * m * pw.
Proof. rate_facts. unfold emi_q. field. lra. Qed.

Lemma factor_pow_succ (i : nat) :
  (1 + m) ^ Z.of_nat (S i) == (1 + m) ^ Z.of_nat i * (1 + m).
Proof.
  rate_facts. rewrite Nat2Z.inj_succ. unfold Z.succ.
  rewrite Qpower_plus by lra. reflexivity.
Qed.

(** The balance in closed form. *)
Lemma balance_q_closed (i : nat) :
  B i principal * (pw - 1) == principal * (pw - (1 + m) ^ Z.of_nat i).
Proof.
  induction i as [ | i IH ].
  - cbn [balance_q Z.of_nat]. change ((1 + m) ^ 0) with 1. ring.
  - rewrite balance_q_succ, factor_pow_succ.
    set (b := B i principal) in *. set (qi := (1 + m) ^ Z.of_nat i) in *.
    assert (H : (b - (E - b * m)) * (pw - 1) == (1 + m) * (b * (pw - 1)) - E * (pw - 1))
      by ring.
    rewrite H, IH, emi_q_scaled. ring.
Qed.

(** The principal portion of the row after [i] payments, unrounded, in closed
    form. *)
Lemma portion_closed (i : nat) :
  (E - B i principal * m) * (pw - 1) == principal * m * (1 + m) ^ Z.of_nat i.
Proof.
  assert (H : (E - B i principal * m) * (pw - 1)
              == E * (pw - 1) - m * (B i principal * (pw - 1))) by ring.
  rewrite H, balance_q_closed, emi_q_scaled. ring.
Qed.

Lemma portion_pos (i : nat) : 0 < E - B i principal * m.
Proof.
  rate_facts.
  pose proof (portion_closed i) as Hc.
  assert (Hq : 1 <= (1 + m) ^ Z.of_nat i) by (apply Qpower_1_le; [ lra | lia ]).
  assert (Hpm : 0 < principal * m) by (apply Qmult_lt_0_compat; lra).
  assert (0 < principal * m * (1 + m) ^ Z.of_nat i)
    by (apply Qmult_lt_0_compat; lra).
  destruct (Qlt_le_dec 0 (E - B i principal * m)) as [ | Hle ]; [ assumption | ].
  exfalso.
  assert (0 <= - (E - B i principal * m) * (pw - 1))
    by (apply Qmult_le_0_compat; lra).
  lra.
Qed.

(** Each portion is the previous one times [1 + m]. *)
Lemma portion_succ (i : nat) :
  E - B (S i) principal * m == (E - B i principal * m) * (1 + m).
Proof. rewrite balance_q_succ. ring. Qed.

(** The portions grow from the first one, [E - principal * m]. *)
Lemma portion_ge_first (i : nat) :
  E - principal * m <= E - B i principal * m.
Proof.
  rate_facts.
  induction i as [ | i IH ]; [ cbn [balance_q]; lra | ].
  rewrite portion_succ.
  pose proof (portion_pos i) as Hp.
  assert (0 <= (E - B i principal * m) * m) by (apply Qmult_le_0_compat; lra).
  lra.
Qed.

(** The last payment clears the balance exactly: the balance before it is the
    principal portion that the formula of the other months gives. *)
Lemma final_balance_q (i : nat) :
  Z.of_nat (S i) = tenureMonths ->
  B i principal == E - B i principal * m.
Proof.
  intros Hi. rate_facts.
  pose proof (balance_q_closed i) as Hb. pose proof (portion_closed i) as Hp.
  assert (Hpw : pw == (1 + m) ^ Z.of_nat i * (1 + m))
    by (rewrite <- Hi; apply factor_pow_succ).
  assert (H1 : B i principal * (pw - 1) == (E - B i principal * m) * (pw - 1)).
  { rewrite Hb, Hp. rewrite Hpw. ring. }
  apply Qmult_inj_r in H1; [ exact H1 | lra ].
Qed.

(** The balance stays positive up to the last payment. *)
Lemma balance_q_pos (i : nat) :
  (Z.of_nat i < tenureMonths)%Z -> 0 < B i principal.
Proof.
  intros Hi. rate_facts.
  pose proof (balance_q_closed i) as Hc.
  assert (Hq : (1 + m) ^ Z.of_nat i < pw)
    by (apply Qpower_lt_compat_l; [ exact Hi | lra ]).
  set (b := B i principal) in *.
  assert (Hpos : 0 < principal * (pw - (1 + m) ^ Z.of_nat i))
    by (apply Qmult_lt_0_compat; lra).
  destruct (Qlt_le_dec 0 b) as [ | Hle ]; [ assumption | exfalso ].
  assert (0 <= (- b) * (pw - 1)) by (apply Qmult_le_0_compat; lra).
  lra.
Qed.

End ScheduleMonotone.

(** The four amounts of the row at index [i] of a schedule, from the
    unrounded balance: the forced principal of the last month is the portion
    of the common formula, and its payment the common payment. *)
Lemma generateAmortizationSchedule_row
  (principal interestRate : Q) (tenureMonths : Z) (i : nat) (row : ScheduleRow) :
  0 < principal -> 0 < interestRate -> (1 <= tenureMonths)%Z ->
  nth_error (generateAmortizationSchedule (Fin principal) (Fin interestRate) tenureMonths) i
  = Some row ->
  let m := interestRate / 100 / 12 in
  let E := emi_q principal interestRate tenureMonths in
  (Z.of_nat i < tenureMonths)%Z /\
  interestPayment row = Fin (cents (balance_q m E i principal * m)) /\
  principalPayment row = Fin (cents (E - balance_q m E i principal * m)) /\
  emi row = Fin (cents E) /\
  remainingPrincipal row =
    (if (1 + Z.of_nat i =? tenureMonths)%Z
     then Fin 0
     else Fin (cents (balance_q m E (S i) principal))).
Proof.
  intros HP Hr Hn Hrow m E.
  unfold generateAmortizationSchedule in Hrow. cbv zeta in Hrow.
  set (mm := (Fin interestRate / Fin 100 / Fin 12)%num) in Hrow.
  set (ee := (Fin principal * mm * Math_pow (Fin 1 + mm) tenureMonths /
              (Math_pow (Fin 1 + mm) tenureMonths - Fin 1))%num) in Hrow.
  assert (Hmm : value mm m) by (subst mm; value_of).
  assert (Hee : value ee E)
    by (apply value_emi; [ apply value_Fin | apply value_Fin | assumption | assumption ]).
  assert (Hlen : (i < Z.to_nat (tenureMonths + 1 - 1))%nat).
  { rewrite <- (schedule_loop_length tenureMonths mm ee
                  (Z.to_nat tenureMonths) 1 (Fin principal)) by lia.
    apply nth_error_Some. rewrite Hrow. discriminate. }
  destruct (schedule_loop_nth tenureMonths mm ee (Z.to_nat tenureMonths) 1 (Fin principal) i)
    as (row' & Hrow' & _ & Hint & Hprin & Hemi & Hrem); [ lia | lia | ].
  rewrite Hrow in Hrow'. injection Hrow' as <-.
  pose proof (value_balance mm ee m E i Hmm Hee (Fin principal) principal
                (value_Fin principal)) as Hb.
  pose proof (value_balance mm ee m E (S i) Hmm Hee (Fin principal) principal
                (value_Fin principal)) as Hb'.
  split; [ lia | ].
  split; [ rewrite Hint; apply to_cents_value; value_of | ].
  rewrite Hprin, Hemi, Hrem.
  destruct (Z.eqb_spec (1 + Z.of_nat i) tenureMonths) as [Hlast | _].
  - assert (Hfinal : balance_q m E i principal == E - balance_q m E i principal * m)
      by (apply final_balance_q; try assumption; lia).
    split; [ | split; [ | reflexivity ] ].
    + rewrite (to_cents_value _ _ Hb). f_equal. apply cents_comp. exact Hfinal.
    + erewrite to_cents_value; [ | value_of ].
      f_equal. apply cents_comp. rewrite Hfinal at 2. ring.
  - split; [ apply to_cents_value; value_of | ].
    split; apply to_cents_value; assumption.
Qed.




(** ** Further properties of the schedule *)



(** Two amounts rounded apart differ from their rounded sum by a cent at
    most. *)
Lemma cents_add (x y s : Q) :
  x + y == s ->
  - (1 # 100) <= cents x + cents y - cents s /\ cents x + cents y - cents s <= 1 # 100.
Proof.
  intros Hs. rewrite !cents_spec.
  pose proof (Qfloor_le (x * 100 + (1 # 2))) as Hx.
  pose proof (Qlt_floor (x * 100 + (1 # 2))) as Hx'.
  pose proof (Qfloor_le (y * 100 + (1 # 2))) as Hy.
  pose proof (Qlt_floor (y * 100 + (1 # 2))) as Hy'.
  pose proof (Qfloor_le (s * 100 + (1 # 2))) as Hz.
  pose proof (Qlt_floor (s * 100 + (1 # 2))) as Hz'.
  set (fx := Qfloor (x * 100 + (1 # 2))) in *.
  set (fy := Qfloor (y * 100 + (1 # 2))) in *.
  set (fs := Qfloor (s * 100 + (1 # 2))) in *.
  assert (Hup : (fx + fy <= fs + 1)%Z).
  { apply Z.lt_succ_r. unfold Z.succ. rewrite Zlt_Qlt, !inject_Z_plus.
    rewrite !inject_Z_plus in Hz'. change (inject_Z 1) with 1 in *. lra. }
  assert (Hdown : (fs - 1 <= fx + fy)%Z).
  { apply Z.lt_succ_r. unfold Z.succ. rewrite Zlt_Qlt, !inject_Z_plus.
    unfold Z.sub. rewrite !inject_Z_plus, inject_Z_opp.
    rewrite !inject_Z_plus in Hx', Hy'. change (inject_Z 1) with 1 in *. lra. }
  apply inject_Z_le in Hup, Hdown.
  unfold Z.sub in Hdown.
  rewrite !inject_Z_plus in Hup, Hdown. rewrite inject_Z_opp in Hdown.
  change (inject_Z 1) with 1 in *.
  split; qlra.
Qed.



(** The principal payments from month [mth] on add up to the balance they
    start from, within half a cent a row. *)
Lemma schedule_loop_total (tenureMonths : Z) (mm ee : number) (m E : Q) (fuel : nat) :
  value mm m -> value ee E ->
  forall (mth : Z) (x acc : number) (b a : Q),
    value x b -> value acc a ->
    (mth <= tenureMonths)%Z ->
    (Z.to_nat (tenureMonths + 1 - mth) <= fuel)%nat ->
    exists t : Q,
      value (fold_left (fun sum row => (sum + principalPayment row)%num)
               (schedule_loop tenureMonths mm ee fuel mth x) acc) t /\
      - (inject_Z (tenureMonths + 1 - mth) * (1 # 200)) <= t - a - b /\
      t - a - b <= inject_Z (tenureMonths + 1 - mth) * (1 # 200).
Proof.
  intros Hmm Hee.
  induction fuel as [ | fuel IH ]; intros mth x acc b a Hx Hacc Hm Hfuel.
  - lia.
  - rewrite schedule_loop_step by exact Hm.
    destruct (Z.eqb_spec mth tenureMonths) as [-> | Hne].
    + rewrite schedule_loop_done by lia. cbn [fold_left principalPayment].
      exists (a + cents b). split; [ value_of | ].
      replace (tenureMonths + 1 - tenureMonths)%Z with 1%Z by lia.
      pose proof (cents_error b) as [Hlo Hhi]. change (inject_Z 1) with 1. split; lra.
    + cbn [fold_left principalPayment].
      destruct (IH (mth + 1)%Z (x - (ee - x * mm))%num
                  (acc + to_cents (ee - x * mm))%num
                  (b - (E - b * m)) (a + cents (E - b * m)))
        as (t & Ht & Hlo & Hhi); [ value_of | value_of | lia | lia | ].
      exists t. split; [ exact Ht | ].
      replace (tenureMonths + 1 - mth)%Z with (tenureMonths + 1 - (mth + 1) + 1)%Z by lia.
      rewrite inject_Z_plus. change (inject_Z 1) with 1.
      pose proof (cents_error (E - b * m)) as [Hlo' Hhi']. split; lra.
Qed.





(** ** Further properties of the prepayment analysis and the savings goal *)

(** X5. A prepayment that covers the principal clears the loan: no payment
    and no tenure are left, and the whole tenure is saved. *)
Theorem calculatePrepaymentImpact_full_clearance
  (Math_log : number -> number) (principal interestRate : Q) (tenureMonths : Z)
  (prepaymentAmount : Q) :
  principal <= prepaymentAmount ->
  let impact :=
    calculatePrepaymentImpact Math_log (Fin principal) (Fin interestRate) tenureMonths
      (Fin prepaymentAmount) in
  reducedEMI impact = Fin 0 /\
  reducedTenure impact = Fin 0 /\
  tenureSaved impact = of_Z tenureMonths /\
  originalTenure impact = tenureMonths.
Proof.
  intros Hle impact. subst impact. unfold calculatePrepaymentImpact. cbv zeta.
  rewrite (leb_value (Fin principal - Fin prepaymentAmount) (Fin 0)
             (principal - prepaymentAmount) 0) by (first [ value_of | lra ]).
  repeat split.
Qed.

Lemma calculatePrepaymentImpact_full_clearance_witness :
  let impact := calculatePrepaymentImpact (fun x => x) (Fin 100000) (Fin 10) 60 (Fin 150000) in
  reducedEMI impact = Fin 0 /\
  reducedTenure impact = Fin 0 /\
  tenureSaved impact = of_Z 60 /\
  originalTenure impact = 60%Z.
Proof.
  apply (calculatePrepaymentImpact_full_clearance (fun x => x) 100000 10 60 150000).
  by_evaluation.
Defined.



(** ** Rounded outputs *)

Lemma cents_idem (q : Q) : cents (cents q) == cents q.
Proof.
  rewrite (cents_spec (cents q)).
  assert (E : cents q * 100 + (1 # 2) == inject_Z (Qfloor (q * 100 + (1 # 2))) + (1 # 2))
    by (rewrite cents_spec; field).
  rewrite (Qfloor_comp _ _ E), cents_spec.
  set (k := Qfloor (q * 100 + (1 # 2))).
  assert (Hk : Qfloor (inject_Z k + (1 # 2)) = k).
  { pose proof (Qfloor_le (inject_Z k + (1 # 2))) as Hlo.
    pose proof (Qlt_floor (inject_Z k + (1 # 2))) as Hhi.
    set (f := Qfloor (inject_Z k + (1 # 2))) in *.
    assert (H1 : (f < k + 1)%Z).
    { rewrite Zlt_Qlt, inject_Z_plus. change (inject_Z 1) with 1. lra. }
    assert (H2 : (k < f + 1)%Z).
    { rewrite Zlt_Qlt. lra. }
    lia. }
  rewrite Hk. reflexivity.
Qed.

(** A value rounded to two decimals is left as it is by the rounding: the
    values of [to_cents] are the numbers that are rounded to two decimals. *)
Lemma to_cents_idem (x : number) : same (to_cents (to_cents x)) (to_cents x).
Proof.
  destruct x as [ | s | q ].
  - exact I.
  - destruct s; reflexivity.
  - rewrite !to_cents_Fin. apply cents_idem.
Qed.


(** * Further properties of the calculation engine *)

(** ** Powers and geometric sums *)

Lemma Qpower_succ (x : Q) (k : nat) : x ^ Z.of_nat (S k) == x ^ Z.of_nat k * x.
Proof.
  rewrite Nat2Z.inj_succ. unfold Z.succ.
  rewrite Qpower_plus' by lia. rewrite Qpower_1_r. reflexivity.
Qed.

Lemma inject_Z_succ (k : nat) : inject_Z (Z.of_nat (S k)) == inject_Z (Z.of_nat k) + 1.
Proof. rewrite Nat2Z.inj_succ. unfold Z.succ. rewrite inject_Z_plus. reflexivity. Qed.

Lemma inject_Z_nonneg (n : Z) : (0 <= n)%Z -> 0 <= inject_Z n.
Proof. intros H. change 0 with (inject_Z 0). rewrite <- Zle_Qle. exact H. Qed.

Lemma inject_Z_pos (n : Z) : (1 <= n)%Z -> 0 < inject_Z n.
Proof. intros H. change 0 with (inject_Z 0). rewrite <- Zlt_Qlt. lia. Qed.

(** A positive factor can be cancelled from a sign. *)
Lemma Qmult_nonneg_cancel (a c : Q) : 0 < c -> 0 <= a * c -> 0 <= a.
Proof.
  intros Hc H. destruct (Qlt_le_dec a 0) as [Hlt | ]; [ exfalso | assumption ].
  assert (0 < (- a) * c) by (apply Qmult_lt_0_compat; lra). lra.
Qed.

(** Bernoulli's inequality. *)
Lemma bernoulli (m : Q) (k : nat) :
  -1 <= m -> 1 + inject_Z (Z.of_nat k) * m <= (1 + m) ^ Z.of_nat k.
Proof.
  intros Hm. induction k as [ | k IH ].
  - change ((1 + m) ^ Z.of_nat 0) with 1. change (inject_Z (Z.of_nat 0)) with 0. lra.
  - rewrite Qpower_succ, inject_Z_succ.
    set (p := (1 + m) ^ Z.of_nat k) in *. set (c := inject_Z (Z.of_nat k)) in *.
    assert (Hc : 0 <= c) by (subst c; apply inject_Z_nonneg; lia).
    assert (0 <= (p - (1 + c * m)) * (1 + m)) by (apply Qmult_le_0_compat; lra).
    assert (0 <= c * (m * m)) by (apply Qmult_le_0_compat; [ lra | nra ]).
    lra.
Qed.

(** A geometric sum of [k] terms is at most [k] times its largest term. *)
Lemma geometric_bound (m : Q) (k : nat) :
  0 <= m -> (1 + m) ^ Z.of_nat k - 1 <= inject_Z (Z.of_nat k) * m * (1 + m) ^ Z.of_nat k.
Proof.
  intros Hm. induction k as [ | k IH ].
  - change ((1 + m) ^ Z.of_nat 0) with 1. change (inject_Z (Z.of_nat 0)) with 0. lra.
  - rewrite Qpower_succ, inject_Z_succ.
    assert (Hp : 1 <= (1 + m) ^ Z.of_nat k) by (apply Qpower_1_le; [ lra | lia ]).
    set (p := (1 + m) ^ Z.of_nat k) in *. set (c := inject_Z (Z.of_nat k)) in *.
    assert (Hc : 0 <= c) by (subst c; apply inject_Z_nonneg; lia).
    assert (0 <= (c + 1) * (m * (p * m))).
    { apply Qmult_le_0_compat; [ lra | ]. apply Qmult_le_0_compat; [ lra | ].
      apply Qmult_le_0_compat; lra. }
    lra.
Qed.

(** Powers of a base between 0 and 1 stay there. *)
Lemma Qpower_le_1 (x : Q) (k : nat) : 0 <= x -> x <= 1 -> 0 <= x ^ Z.of_nat k <= 1.
Proof.
  intros H0 H1. induction k as [ | k [IH0 IH1] ].
  - change (x ^ Z.of_nat 0) with 1. split; lra.
  - rewrite Qpower_succ. set (p := x ^ Z.of_nat k) in *.
    assert (0 <= p * x) by (apply Qmult_le_0_compat; lra).
    assert (0 <= p * (1 - x)) by (apply Qmult_le_0_compat; lra).
    split; lra.
Qed.

(** The ratio [y / (y - 1)] falls as [y > 1] grows. *)
Lemma ratio_antitone (a b : Q) : 1 < a -> a <= b -> b / (b - 1) <= a / (a - 1).
Proof.
  intros Ha Hab.
  apply Qle_shift_div_l; [ lra | ].
  assert (E : b / (b - 1) * (a - 1) == b * (a - 1) / (b - 1)) by (field; lra).
  rewrite E. apply Qle_shift_div_r; lra.
Qed.

(** A finite number denotes every rational equal to its value. *)
Lemma value_comp (x : number) (p q : Q) : value x p -> p == q -> value x q.
Proof.
  destruct x as [ | | r ]; cbn [value]; try contradiction.
  intros Hx Hpq. rewrite Hx. exact Hpq.
Qed.

Lemma leb_Fin_inv (p q : Q) : (Fin p <=? Fin q)%num = true -> p <= q.
Proof. cbn [leb]. apply Qle_bool_iff. Qed.

(** ** The payment *)

(** The payment covers the month's interest on the principal. *)
Lemma emi_q_ge_interest (P r : Q) (n : Z) :
  0 <= P -> 0 < r -> (1 <= n)%Z -> P * (r / 100 / 12) <= emi_q P r n.
Proof.
  intros HP Hr Hn.
  pose proof (emi_q_diff P P r n Hr Hn HP) as H.
  assert (E : emi_q (P - P) r n == 0).
  { unfold emi_q. pose proof (growth_factor_gt_1 r n Hr Hn). field. lra. }
  rewrite E in H. lra.
Qed.

(** The payment covers an equal share of the principal. *)
Lemma emi_q_ge_share (P r : Q) (n : Z) :
  0 <= P -> 0 < r -> (1 <= n)%Z -> P / inject_Z n <= emi_q P r n.
Proof.
  intros HP Hr Hn.
  pose proof (monthly_rate_pos r Hr) as Hm.
  pose proof (growth_factor_gt_1 r n Hr Hn) as Hpw.
  pose proof (inject_Z_pos n Hn) as Hnq.
  pose proof (geometric_bound (r / 100 / 12) (Z.to_nat n) (Qlt_le_weak _ _ Hm)) as Hg.
  rewrite Z2Nat.id in Hg by lia.
  unfold emi_q.
  set (m := r / 100 / 12) in *. set (pw := (1 + m) ^ n) in *.
  apply Qle_shift_div_r; [ exact Hnq | ].
  assert (H0 : 0 <= P * m * pw / (pw - 1) * inject_Z n - P); [ | lra ].
  apply (Qmult_nonneg_cancel _ (pw - 1)); [ lra | ].
  assert (E : (P * m * pw / (pw - 1) * inject_Z n - P) * (pw - 1)
              == P * (inject_Z n * m * pw - (pw - 1))) by (field; lra).
  rewrite E. apply Qmult_le_0_compat; lra.
Qed.

(** The payment falls as the tenure grows. *)
Lemma emi_q_tenure (P r : Q) (n n' : Z) :
  0 <= P -> 0 < r -> (1 <= n)%Z -> (n <= n')%Z -> emi_q P r n' <= emi_q P r n.
Proof.
  intros HP Hr Hn Hnn'.
  pose proof (monthly_rate_pos r Hr) as Hm.
  pose proof (growth_factor_gt_1 r n Hr Hn) as Hpw.
  assert (Hle : (1 + r / 100 / 12) ^ n <= (1 + r / 100 / 12) ^ n')
    by (apply Qpower_le_compat_l; [ exact Hnn' | lra ]).
  pose proof (ratio_antitone _ _ Hpw Hle) as Hr'.
  unfold emi_q.
  set (m := r / 100 / 12) in *. set (a := (1 + m) ^ n) in *. set (b := (1 + m) ^ n') in *.
  assert (Ea : P * m * a / (a - 1) == P * m * (a / (a - 1))) by (field; lra).
  assert (Eb : P * m * b / (b - 1) == P * m * (b / (b - 1))) by (field; lra).
  rewrite Ea, Eb.
  assert (0 <= P * m) by (apply Qmult_le_0_compat; lra).
  assert (0 <= P * m * (a / (a - 1) - b / (b - 1))) by (apply Qmult_le_0_compat; lra).
  lra.
Qed.





Lemma discount_q_closed (m : Q) (k : nat) :
  0 < m -> discount_q (1 + m) k * m * (1 + m) ^ Z.of_nat k == (1 + m) ^ Z.of_nat k - 1.
Proof.
  intros Hm. induction k as [ | k IH ].
  - cbn [discount_q]. change ((1 + m) ^ Z.of_nat 0) with 1. ring.
  - cbn [discount_q]. rewrite Qpower_succ.
    set (p := (1 + m) ^ Z.of_nat k) in *. set (d := discount_q (1 + m) k) in *.
    assert (E : (d + 1) / (1 + m) * m * (p * (1 + m)) == d * m * p + m * p) by (field; lra).
    rewrite E, IH. ring.
Qed.

Lemma discount_q_antitone (x x' : Q) (k : nat) :
  0 < x -> x <= x' -> 0 <= discount_q x' k <= discount_q x k.
Proof.
  intros Hx Hxx'. induction k as [ | k [IH0 IH1] ].
  - cbn [discount_q]. split; lra.
  - cbn [discount_q]. split.
    + apply Qle_shift_div_l; lra.
    + apply Qle_shift_div_l; [ lra | ].
      assert (E : (discount_q x' k + 1) / x' * x == (discount_q x' k + 1) * x / x')
        by (field; lra).
      rewrite E. apply Qle_shift_div_r; [ lra | ].
      assert (0 <= (discount_q x' k + 1) * (x' - x)) by (apply Qmult_le_0_compat; lra).
      assert (0 <= (discount_q x k - discount_q x' k) * x') by (apply Qmult_le_0_compat; lra).
      lra.
Qed.

Lemma discount_q_pos (x : Q) (k : nat) : 0 < x -> (1 <= k)%nat -> 0 < discount_q x k.
Proof.
  intros Hx Hk. destruct k as [ | k ]; [ lia | ].
  cbn [discount_q].
  pose proof (discount_q_antitone x x k Hx ltac:(lra)) as [H0 _].
  apply Qlt_shift_div_l; lra.
Qed.

(** The payment is the principal over the sum of the discount factors. *)
Lemma emi_q_discount (P r : Q) (n : Z) :
  0 < r -> (1 <= n)%Z ->
  emi_q P r n * discount_q (1 + r / 100 / 12) (Z.to_nat n) == P.
Proof.
  intros Hr Hn.
  pose proof (monthly_rate_pos r Hr) as Hm.
  pose proof (growth_factor_gt_1 r n Hr Hn) as Hpw.
  pose proof (discount_q_closed (r / 100 / 12) (Z.to_nat n) Hm) as Hc.
  rewrite Z2Nat.id in Hc by lia.
  unfold emi_q.
  set (m := r / 100 / 12) in *. set (pw := (1 + m) ^ n) in *.
  set (d := discount_q (1 + m) (Z.to_nat n)) in *.
  assert (E : P * m * pw / (pw - 1) * d == P * (d * m * pw) / (pw - 1)) by (field; lra).
  rewrite E, Hc. field. lra.
Qed.

(** The payment rises with the rate. *)
Lemma emi_q_rate (P r r' : Q) (n : Z) :
  0 <= P -> 0 < r -> r <= r' -> (1 <= n)%Z -> emi_q P r n <= emi_q P r' n.
Proof.
  intros HP Hr Hrr' Hn.
  assert (Hr' : 0 < r') by lra.
  pose proof (monthly_rate_pos r Hr) as Hm.
  pose proof (emi_q_discount P r n Hr Hn) as E.
  pose proof (emi_q_discount P r' n Hr' Hn) as E'.
  pose proof (monthly_rate_pos r' Hr') as Hm'.
  assert (Hmm : 1 + r / 100 / 12 <= 1 + r' / 100 / 12) by qlra.
  assert (Hx : 0 < 1 + r / 100 / 12) by lra.
  assert (Hx' : 0 < 1 + r' / 100 / 12) by lra.
  pose proof (discount_q_antitone (1 + r / 100 / 12) (1 + r' / 100 / 12) (Z.to_nat n) Hx Hmm)
    as [_ Hd].
  pose proof (discount_q_pos (1 + r' / 100 / 12) (Z.to_nat n) Hx' ltac:(lia)) as Hd'.
  pose proof (emi_q_ge_interest P r n HP Hr Hn) as Hge.
  assert (HE : 0 <= emi_q P r n).
  { assert (0 <= P * (r / 100 / 12)) by (apply Qmult_le_0_compat; lra). lra. }
  set (a := emi_q P r n) in *. set (b := emi_q P r' n) in *.
  set (d := discount_q (1 + r / 100 / 12) (Z.to_nat n)) in *.
  set (d' := discount_q (1 + r' / 100 / 12) (Z.to_nat n)) in *.
  assert (H0 : 0 <= b - a); [ | lra ].
  apply (Qmult_nonneg_cancel _ d'); [ exact Hd' | ].
  assert (0 <= a * (d - d')) by (apply Qmult_le_0_compat; lra).
  lra.
Qed.



(** ** Interest saved by a prepayment *)

(** An amount in whole cents is its own rounding. *)
Lemma cents_hundredths (k : Z) : cents (inject_Z k / 100) == inject_Z k / 100.
Proof.
  rewrite cents_spec.
  assert (E : inject_Z k / 100 * 100 + (1 # 2) == inject_Z k + (1 # 2)) by field.
  rewrite (Qfloor_comp _ _ E).
  assert (Hk : Qfloor (inject_Z k + (1 # 2)) = k).
  { pose proof (Qfloor_le (inject_Z k + (1 # 2))) as Hlo.
    pose proof (Qlt_floor (inject_Z k + (1 # 2))) as Hhi.
    set (f := Qfloor (inject_Z k + (1 # 2))) in *.
    assert (H1 : (f < k + 1)%Z).
    { rewrite Zlt_Qlt, inject_Z_plus. change (inject_Z 1) with 1. lra. }
    assert (H2 : (k < f + 1)%Z).
    { rewrite Zlt_Qlt. lra. }
    lia. }
  rewrite Hk. reflexivity.
Qed.

(** The payment is linear in the principal. *)
Lemma emi_q_linear (P d r : Q) (n : Z) :
  0 < r -> (1 <= n)%Z -> emi_q P r n - emi_q (P - d) r n == emi_q d r n.
Proof.
  intros Hr Hn. pose proof (growth_factor_gt_1 r n Hr Hn). unfold emi_q. field. lra.
Qed.



(** ** Investment growth *)

Lemma calculateInvestmentGrowth_value (x y z : number) (I c r : Q) (years : Z) :
  value x I -> value y c -> value z r -> ~ r == 0 -> (0 <= years)%Z ->
  calculateInvestmentGrowth x y z years = Fin (cents (growth_q I c r (years * 12))).
Proof.
  intros Hx Hy Hz Hr Hyears. unfold calculateInvestmentGrowth, growth_q.
  change (Math_round (?a * Fin 100) / Fin 100)%num with (to_cents a).
  apply to_cents_value. value_of. apply monthly_rate_nonzero. exact Hr.
Qed.

Lemma growth_q_annuity (I c r : Q) (N : Z) :
  ~ r == 0 -> growth_q I c r N == I * (1 + r / 100 / 12) ^ N + c * annuity_q r N.
Proof. intros Hr. unfold growth_q, annuity_q. field. exact Hr. Qed.

(** At a positive rate the annuity factor is at least the number of months. *)
Lemma annuity_q_ge (r : Q) (N : Z) :
  0 < r -> (0 <= N)%Z -> inject_Z N <= annuity_q r N.
Proof.
  intros Hr HN. pose proof (monthly_rate_pos r Hr) as Hm. unfold annuity_q.
  assert (Hb : 1 + inject_Z N * (r / 100 / 12) <= (1 + r / 100 / 12) ^ N).
  { rewrite <- (Z2Nat.id N) by exact HN. apply bernoulli. lra. }
  apply Qle_shift_div_l; lra.
Qed.

Lemma annuity_q_pos (r : Q) (N : Z) : 0 < r -> (1 <= N)%Z -> 0 < annuity_q r N.
Proof.
  intros Hr HN. pose proof (annuity_q_ge r N Hr ltac:(lia)) as H.
  pose proof (inject_Z_pos N HN). lra.
Qed.

(** At a negative rate, down to the loss of everything each month, it is at
    most the number of months. *)
Lemma annuity_q_le (r : Q) (N : Z) :
  -1200 <= r -> r < 0 -> (0 <= N)%Z -> 0 <= annuity_q r N <= inject_Z N.
Proof.
  intros Hlo Hr HN. unfold annuity_q.
  assert (Hm : r / 100 / 12 < 0) by qlra.
  assert (Hm' : -1 <= r / 100 / 12) by qlra.
  assert (Hb : 1 + inject_Z N * (r / 100 / 12) <= (1 + r / 100 / 12) ^ N).
  { rewrite <- (Z2Nat.id N) by exact HN. apply bernoulli. lra. }
  assert (Hp : 0 <= (1 + r / 100 / 12) ^ N <= 1).
  { rewrite <- (Z2Nat.id N) by exact HN. apply Qpower_le_1; lra. }
  set (m := r / 100 / 12) in *. set (pw := (1 + m) ^ N) in *.
  assert (E : (pw - 1) / m == (1 - pw) / (- m)) by (field; lra).
  rewrite E. split.
  - apply Qle_shift_div_l; lra.
  - apply Qle_shift_div_r; lra.
Qed.





(** ** The savings goal *)

(** The value of [calculateMonthlySavingsForGoal] when the current amount
    alone does not grow to the target. *)
Lemma calculateMonthlySavingsForGoal_value (T C r : Q) (y : Z) :
  0 < r -> (1 <= y)%Z -> C * (1 + r / 100 / 12) ^ (y * 12) < T ->
  calculateMonthlySavingsForGoal (Fin T) (Fin C) y (Fin r)
  = Fin (cents ((T - C * (1 + r / 100 / 12) ^ (y * 12)) / annuity_q r (y * 12))).
Proof.
  intros Hr Hy Hlt. unfold calculateMonthlySavingsForGoal. cbv zeta.
  pose proof (monthly_rate_pos r Hr) as Hm.
  pose proof (annuity_q_pos r (y * 12) Hr ltac:(lia)) as Ha.
  erewrite leb_value_false; [ | value_of | value_of | lra ].
  change (Math_round (?a * Fin 100) / Fin 100)%num with (to_cents a).
  apply to_cents_value. unfold annuity_q in *. value_of; lra.
Qed.



(** A positive amount over zero is +Infinity. *)
Lemma div_pos_zero (x y : number) (p q : Q) :
  value x p -> value y q -> 0 < p -> q == 0 -> (x / y)%num = Infinity false.
Proof.
  destruct x as [ | | p' ], y as [ | | q' ]; cbn [value div]; try contradiction.
  intros Hx Hy Hp Hq.
  rewrite (is_zero_true q') by (rewrite Hy; exact Hq).
  rewrite (is_zero_false p') by (rewrite Hx; lra).
  unfold is_neg. replace (Qle_bool 0 p') with true; [ reflexivity | ].
  symmetry. apply Qle_bool_iff. rewrite Hx. lra.
Qed.



(** ** The shape of the schedule and of the projection *)

(** X16. For all inputs, special values included,
    [generateAmortizationSchedule] returns max(tenureMonths, 0) rows, none
    for a tenure of 0 or less, and the row at index i is the row of month
    i + 1. *)
Theorem generateAmortizationSchedule_months
  (principal interestRate : number) (tenureMonths : Z) :
  let schedule := generateAmortizationSchedule principal interestRate tenureMonths in
  length schedule = Z.to_nat tenureMonths /\
  forall (i : nat) (row : ScheduleRow),
    nth_error schedule i = Some row -> month row = (Z.of_nat i + 1)%Z.
Proof.
  intros schedule. subst schedule. unfold generateAmortizationSchedule. cbv zeta.
  set (mm := (interestRate / Fin 100 / Fin 12)%num).
  set (ee := (principal * mm * Math_pow (Fin 1 + mm) tenureMonths /
              (Math_pow (Fin 1 + mm) tenureMonths - Fin 1))%num).
  assert (Hlen : length (schedule_loop tenureMonths mm ee (Z.to_nat tenureMonths) 1 principal)
                 = Z.to_nat tenureMonths).
  { rewrite schedule_loop_length by lia. f_equal. lia. }
  split; [ exact Hlen | ].
  intros i row Hrow.
  assert (Hi : (i < Z.to_nat tenureMonths)%nat).
  { rewrite <- Hlen. apply nth_error_Some. rewrite Hrow. discriminate. }
  destruct (schedule_loop_nth tenureMonths mm ee (Z.to_nat tenureMonths) 1 principal i)
    as (row' & Hrow' & Hmonth & _); [ lia | lia | ].
  rewrite Hrow in Hrow'. injection Hrow' as <-. lia.
Qed.

(** The carried net worth in closed form. *)
Lemma carried_q_closed (s g : Q) (i : nat) (x : Q) :
  ~ g == 0 ->
  carried_q s g i x
  == x * (1 + g / 100) ^ Z.of_nat i + s * ((1 + g / 100) ^ Z.of_nat i - 1) / (g / 100).
Proof.
  intros Hg. revert x. induction i as [ | i IH ]; intros x.
  - cbn [carried_q]. change ((1 + g / 100) ^ Z.of_nat 0) with 1. field. exact Hg.
  - cbn [carried_q]. rewrite IH. unfold next_worth.
    assert (E : (1 + g / 100) ^ Z.of_nat (S i) == (1 + g / 100) * (1 + g / 100) ^ Z.of_nat i)
      by (rewrite Qpower_succ; ring).
    rewrite E. field. exact Hg.
Qed.

Lemma carried_q_linear (s g : Q) (i : nat) (x : Q) :
  g == 0 -> carried_q s g i x == x + s * inject_Z (Z.of_nat i).
Proof.
  intros Hg. revert x. induction i as [ | i IH ]; intros x.
  - cbn [carried_q]. change (inject_Z (Z.of_nat 0)) with 0. ring.
  - cbn [carried_q]. rewrite IH, inject_Z_succ. unfold next_worth. rewrite Hg.
    field.
Qed.



(** ** Zero rate, in general *)

(** X18. The three formulas that divide by the monthly rate have no case for
    a zero rate.  For every finite principal, initialAmount,
    monthlyContribution and every integer tenure or number of years,
    [calculateEMI] and [calculateInvestmentGrowth] return NaN at rate 0, and
    so does [calculateMonthlySavingsForGoal] for every finite targetAmount >
    currentAmount. *)
Theorem zero_rate_is_not_a_number
  (principal initialAmount monthlyContribution targetAmount currentAmount : Q)
  (tenureMonths years yearsToGoal : Z) :
  calculateEMI (Fin principal) (Fin 0) tenureMonths = NaN /\
  calculateInvestmentGrowth (Fin initialAmount) (Fin monthlyContribution) (Fin 0) years = NaN /\
  (currentAmount < targetAmount ->
   calculateMonthlySavingsForGoal (Fin targetAmount) (Fin currentAmount) yearsToGoal (Fin 0)
   = NaN).
Proof.
  split; [ apply calculateEMI_zero_rate | ].
  split; [ apply calculateInvestmentGrowth_zero_rate | ].
  apply calculateMonthlySavingsForGoal_zero_rate.
Qed.

(** At a zero rate the unrounded payment is NaN for every principal. *)
Lemma exactEmi_zero_rate (principal : number) (n : Z) :
  (principal * (Fin 0 / Fin 100 / Fin 12) * Math_pow (Fin 1 + Fin 0 / Fin 100 / Fin 12) n /
   (Math_pow (Fin 1 + Fin 0 / Fin 100 / Fin 12) n - Fin 1))%num = NaN.
Proof.
  pose proof (Math_pow_zero_rate n) as Hpw.
  destruct principal as [ | s | p ]; [ reflexivity | reflexivity | ].
  erewrite (div_zero_zero (Fin p * _ * _) (_ - Fin 1));
    [ reflexivity | value_of | value_of | | ].
  - assert (E : 0 / 100 / 12 == 0) by reflexivity. rewrite E. ring.
  - ring.
Qed.

(** With NaN for the payment, the balance is NaN after one month. *)
Lemma balance_NaN (mm : number) (i : nat) (rem : number) :
  balance mm NaN (S i) rem = NaN.
Proof.
  revert rem. induction i as [ | i IH ]; intros rem.
  - cbn [balance]. destruct rem; reflexivity.
  - change (balance mm NaN (S (S i)) rem)
      with (balance mm NaN (S i) (rem - (NaN - rem * mm))%num).
    apply IH.
Qed.

(** X19. At a zero rate and a tenure of two months or more, every row of
    [generateAmortizationSchedule] reports NaN for its emi and for its
    principalPayment, whatever the principal. *)
Theorem generateAmortizationSchedule_zero_rate (principal : number) (tenureMonths : Z) :
  (2 <= tenureMonths)%Z ->
  forall (i : nat) (row : ScheduleRow),
    nth_error (generateAmortizationSchedule principal (Fin 0) tenureMonths) i = Some row ->
    emi row = NaN /\ principalPayment row = NaN.
Proof.
  intros Hn i row Hrow.
  unfold generateAmortizationSchedule in Hrow. cbv zeta in Hrow.
  rewrite exactEmi_zero_rate in Hrow.
  set (mm := (Fin 0 / Fin 100 / Fin 12)%num) in Hrow.
  assert (Hi : (i < Z.to_nat (tenureMonths + 1 - 1))%nat).
  { rewrite <- (schedule_loop_length tenureMonths mm NaN (Z.to_nat tenureMonths) 1 principal)
      by lia.
    apply nth_error_Some. rewrite Hrow. discriminate. }
  destruct (schedule_loop_nth tenureMonths mm NaN (Z.to_nat tenureMonths) 1 principal i)
    as (row' & Hrow' & _ & _ & Hprin & Hemi & _); [ lia | lia | ].
  rewrite Hrow in Hrow'. injection Hrow' as <-.
  rewrite Hprin, Hemi.
  destruct (Z.eqb_spec (1 + Z.of_nat i) tenureMonths) as [Hlast | _].
  - destruct i as [ | i ]; [ lia | ]. rewrite balance_NaN. split; reflexivity.
  - split; reflexivity.
Qed.

Lemma generateAmortizationSchedule_zero_rate_witness :
  let schedule := generateAmortizationSchedule (Fin 100000) (Fin 0) 12 in
  let row := nth 11 schedule no_row in
  nth_error schedule 11 = Some row /\ emi row = NaN /\ principalPayment row = NaN.
Proof.
  intros schedule row.
  assert (Hrow : nth_error schedule 11 = Some row) by nth_by_evaluation.
  split; [ exact Hrow | ].
  apply (generateAmortizationSchedule_zero_rate (Fin 100000) 12 ltac:(by_evaluation)
           11%nat row Hrow).
Defined.

(** * Properties of the callers *)

(** ** The debugging utilities *)

Section ForecastFacts.

Variable formatCurrency : number -> String.string.
Variables investmentReturn yearlySavings : number.
Variable years : Z.

Local Abbreviation loop := (forecast_loop formatCurrency investmentReturn yearlySavings years).
Local Abbreviation carry := (carried yearlySavings investmentReturn).

Lemma forecast_loop_length (fuel : nat) (y : Z) (x : number) :
  (Z.to_nat (Z.min 5 years + 1 - y) <= fuel)%nat ->
  length (loop fuel y x) = Z.to_nat (Z.min 5 years + 1 - y).
Proof.
  revert y x.
  induction fuel as [ | fuel IH ]; intros y x H; cbn [forecast_loop].
  - cbn [length]. lia.
  - destruct (Z.leb_spec y (Z.min 5 years)); cbn [length].
    + rewrite IH by lia. lia.
    + lia.
Qed.

(** The [i]-th point pushed from year [y] on: up to the last year pushed, the
    carried value has been advanced at every step. *)
Lemma forecast_loop_nth (fuel : nat) (y : Z) (x : number) (i : nat) :
  (y + Z.of_nat i <= Z.min 5 years)%Z ->
  (Z.to_nat (Z.min 5 years + 1 - y) <= fuel)%nat ->
  exists point,
    nth_error (loop fuel y x) i = Some point /\
    ForecastPoint.year point = (y + Z.of_nat i)%Z /\
    ForecastPoint.netWorth point = to_cents (carry i x).
Proof.
  revert y x i.
  induction fuel as [ | fuel IH ]; intros y x i Hi H.
  - lia.
  - cbn [forecast_loop]. destruct (Z.leb_spec y (Z.min 5 years)); [ | lia ].
    destruct i as [ | i ].
    + eexists. split; [ reflexivity | ]. split; [ cbn; lia | reflexivity ].
    + cbn [nth_error].
      destruct (Z.ltb_spec y years); [ | lia ].
      destruct (IH (y + 1)%Z
                  (x * (Fin 1 + investmentReturn / Fin 100) + yearlySavings)%num i)
        as (point & Hpoint & Hyear & Hworth); [ lia | lia | ].
      exists point. split; [ exact Hpoint | ]. split; [ lia | exact Hworth ].
Qed.

End ForecastFacts.

(** X20. For all inputs, [debugForecastCalculation] lists min(5, years) + 1
    points, none for negative years, and each of them has the year and the
    netWorth of the point at the same index of [generateWealthProjection]
    called with the same initialNetWorth, the yearlySavings the function
    reports, investmentReturn as growth rate, and years. *)
Theorem debugForecastCalculation_matches_generateWealthProjection
  (formatCurrency : number -> String.string)
  (initialNetWorth monthlyIncome monthlyExpenses monthlyEMIs
   savingsRate investmentReturn inflationRate : number) (years : Z) :
  let debug :=
    debugForecastCalculation formatCurrency initialNetWorth monthlyIncome monthlyExpenses
      monthlyEMIs savingsRate investmentReturn inflationRate years in
  let projection :=
    generateWealthProjection initialNetWorth (ForecastDebug.yearlySavings debug)
      investmentReturn years in
  length (ForecastDebug.projection debug) = Z.to_nat (Z.min 5 years + 1) /\
  forall (i : nat) (point : ForecastPoint.t),
    nth_error (ForecastDebug.projection debug) i = Some point ->
    exists p : ProjectionPoint,
      nth_error projection i = Some p /\
      year p = ForecastPoint.year point /\
      netWorth p = ForecastPoint.netWorth point.
Proof.
  intros debug projection. subst debug projection.
  unfold debugForecastCalculation. cbv zeta.
  cbn [ForecastDebug.projection ForecastDebug.yearlySavings].
  set (s := ((if (monthlyIncome - monthlyExpenses - monthlyEMIs >? Fin 0)%num
              then (monthlyIncome - monthlyExpenses - monthlyEMIs) * savingsRate / Fin 100
              else Fin 0) * Fin 12)%num).
  assert (Hlen : length (forecast_loop formatCurrency investmentReturn s years
                           (Z.to_nat (Z.min 5 years + 1)) 0 initialNetWorth)
                 = Z.to_nat (Z.min 5 years + 1)).
  { rewrite forecast_loop_length by lia. f_equal. lia. }
  split; [ exact Hlen | ].
  intros i point Hpoint.
  assert (Hi : (i < Z.to_nat (Z.min 5 years + 1))%nat).
  { rewrite <- Hlen. apply nth_error_Some. rewrite Hpoint. discriminate. }
  destruct (forecast_loop_nth formatCurrency investmentReturn s years
              (Z.to_nat (Z.min 5 years + 1)) 0 initialNetWorth i)
    as (point' & Hpoint' & Hyear & Hworth); [ lia | lia | ].
  rewrite Hpoint in Hpoint'. injection Hpoint' as <-.
  eexists. split.
  - unfold generateWealthProjection. apply projection_loop_nth; lia.
  - cbn [year netWorth]. rewrite Hyear, Hworth. split; reflexivity.
Qed.

Lemma gtb_value_false (x : number) (p : Q) : value x p -> p <= 0 -> (x >? Fin 0)%num = false.
Proof.
  destruct x as [ | | p' ]; cbn [value]; try contradiction.
  intros Hx Hp. unfold gtb. cbn [ltb].
  replace (Qle_bool p' 0) with true; [ reflexivity | ].
  symmetry. apply Qle_bool_iff. rewrite Hx. exact Hp.
Qed.

Lemma gtb_value_true (x : number) (p : Q) : value x p -> 0 < p -> (x >? Fin 0)%num = true.
Proof.
  destruct x as [ | | p' ]; cbn [value]; try contradiction.
  intros Hx Hp. unfold gtb. apply ltb_Fin. rewrite Hx. exact Hp.
Qed.



(** X22. A bank account that is not flagged as an asset contributes to no
    part of the breakdown: [debugNetWorthCalculation] returns the same
    object, totals, details and net worth, with or without it, wherever it
    stands in the list. *)
Theorem debugNetWorthCalculation_ignores_non_assets
  (formatCurrency : number -> String.string)
  (assets : list Asset.t) (before after : list BankAccount.t) (account : BankAccount.t)
  (loans : list Loan.t) :
  BankAccount.isAsset account = false ->
  debugNetWorthCalculation formatCurrency assets (before ++ account :: after) loans
  = debugNetWorthCalculation formatCurrency assets (before ++ after) loans.
Proof.
  intros Hno. unfold debugNetWorthCalculation.
  rewrite !filter_app. cbn [filter]. rewrite Hno. reflexivity.
Qed.

Lemma debugNetWorthCalculation_ignores_non_assets_witness :
  debugNetWorthCalculation (fun _ => String.EmptyString) []
    ([example_account (Fin 4645000) (Fin 3) true]
     ++ example_account (Fin 950000) (Fin 4.5) false :: [])
    [example_loan (Fin 10000000)]
  = debugNetWorthCalculation (fun _ => String.EmptyString) []
      ([example_account (Fin 4645000) (Fin 3) true] ++ [])
      [example_loan (Fin 10000000)].
Proof.
  apply (debugNetWorthCalculation_ignores_non_assets (fun _ => String.EmptyString) []
           [example_account (Fin 4645000) (Fin 3) true] []
           (example_account (Fin 950000) (Fin 4.5) false)
           [example_loan (Fin 10000000)]).
  reflexivity.
Defined.

(** ** The forecast page *)

(** The point at index [i] of the page's projection, from the point of
    [generateWealthProjection] it is mapped from. *)
Lemma generateProjection_nth
  (initialNetWorth monthlyIncome monthlyExpenses monthlyEMIs : number) (years : Z)
  (savingsRate inflationRate investmentReturn : number) (i : nat) (point : InflationPoint.t) :
  nth_error
    (Forecast.generateProjection initialNetWorth monthlyIncome monthlyExpenses monthlyEMIs
       years savingsRate inflationRate investmentReturn) i = Some point ->
  let availableIncome := (monthlyIncome - monthlyExpenses - monthlyEMIs)%num in
  let yearlySavings :=
    ((if (availableIncome >? Fin 0)%num then availableIncome * savingsRate / Fin 100
      else Fin 0) * Fin 12)%num in
  exists p : ProjectionPoint,
    nth_error (generateWealthProjection initialNetWorth yearlySavings investmentReturn years) i
    = Some p /\
    point = InflationPoint.mk (year p) (netWorth p)
              (netWorth p / Math_pow (Fin 1 + inflationRate / Fin 100) (year p))%num.
Proof.
  intros Hpoint availableIncome yearlySavings.
  unfold Forecast.generateProjection in Hpoint. cbv zeta in Hpoint.
  rewrite nth_error_map in Hpoint.
  fold availableIncome yearlySavings in Hpoint.
  destruct (nth_error (generateWealthProjection initialNetWorth yearlySavings
                         investmentReturn years) i) as [p | ];
    [ | discriminate Hpoint ].
  cbn [option_map] in Hpoint. injection Hpoint as <-.
  exists p. split; reflexivity.
Qed.

Lemma Qred_idem_div_1 (q : Q) : Qred (Qred q / 1) = Qred q.
Proof. apply Qred_complete. rewrite Qred_correct. field. Qed.

(** A rounded amount over 1 is that amount. *)
Lemma to_cents_div_1 (x : number) : (to_cents x / Fin 1)%num = to_cents x.
Proof.
  destruct x as [ | s | q ]; [ reflexivity | destruct s; reflexivity | ].
  rewrite to_cents_Fin. unfold cents. cbn [div]. change (is_zero 1) with false. cbn iota.
  unfold fin. f_equal. apply Qred_idem_div_1.
Qed.

(** X23. For all inputs and every integer years >= 0, the projection of the
    forecast page has years + 1 points, and its first point, the point of
    year 0, carries initialNetWorth rounded to two decimals both as netWorth
    and as netWorthAfterInflation: no growth, no savings and no inflation are
    applied to it. *)
Theorem generateProjection_today
  (initialNetWorth monthlyIncome monthlyExpenses monthlyEMIs : number) (years : Z)
  (savingsRate inflationRate investmentReturn : number) :
  (0 <= years)%Z ->
  let projection :=
    Forecast.generateProjection initialNetWorth monthlyIncome monthlyExpenses monthlyEMIs
      years savingsRate inflationRate investmentReturn in
  length projection = Z.to_nat (years + 1) /\
  nth_error projection 0
  = Some (InflationPoint.mk 0 (to_cents initialNetWorth) (to_cents initialNetWorth)).
Proof.
  intros Hy projection. subst projection.
  unfold Forecast.generateProjection. cbv zeta.
  set (s := ((if (monthlyIncome - monthlyExpenses - monthlyEMIs >? Fin 0)%num
              then (monthlyIncome - monthlyExpenses - monthlyEMIs) * savingsRate / Fin 100
              else Fin 0) * Fin 12)%num).
  split.
  - rewrite length_map. unfold generateWealthProjection.
    rewrite projection_loop_length by lia. f_equal. lia.
  - rewrite nth_error_map. unfold generateWealthProjection.
    rewrite projection_loop_nth by lia. cbn [option_map carried year netWorth Z.of_nat Z.add].
    change (Math_pow (Fin 1 + inflationRate / Fin 100) 0) with (Fin 1).
    rewrite to_cents_div_1. reflexivity.
Qed.

Lemma generateProjection_today_witness :
  let projection :=
    Forecast.generateProjection (Fin 250000.555) (Fin 145000) (Fin 40000) (Fin 80522.71) 20
      (Fin 30) (Fin 7) (Fin 20) in
  length projection = Z.to_nat (20 + 1) /\
  nth_error projection 0
  = Some (InflationPoint.mk 0 (to_cents (Fin 250000.555)) (to_cents (Fin 250000.555))).
Proof.
  apply (generateProjection_today (Fin 250000.555) (Fin 145000) (Fin 40000) (Fin 80522.71) 20
           (Fin 30) (Fin 7) (Fin 20)).
  by_evaluation.
Defined.

(** The carried net worth at finite arguments, whatever expressions give
    them. *)
Lemma value_carried_at (s g : number) (sq gq : Q) (i : nat) :
  value s sq -> value g gq ->
  forall (x : number) (q : Q), value x q -> value (carried s g i x) (carried_q sq gq i q).
Proof.
  intros Hs Hg. induction i as [ | i IH ]; intros x q Hx; [ exact Hx | ].
  cbn [carried carried_q]. apply IH. unfold next_worth. value_of.
Qed.

(** With nothing saved the net worth only compounds. *)
Lemma carried_q_no_savings (g : Q) (i : nat) (x : Q) :
  carried_q 0 g i x == x * (1 + g / 100) ^ Z.of_nat i.
Proof.
  revert x. induction i as [ | i IH ]; intros x.
  - cbn [carried_q]. change ((1 + g / 100) ^ Z.of_nat 0) with 1. ring.
  - cbn [carried_q]. rewrite IH, Qpower_succ. unfold next_worth. ring.
Qed.





(** ** Bank accounts *)

(** [x || 0] keeps the value of a finite [x]. *)
Lemma value_or_else_zero (x : number) (q : Q) : value x q -> value (or_else x (Fin 0)) q.
Proof.
  destruct x as [ | | p ]; cbn [value]; try contradiction.
  intros Hx. unfold or_else, truthy, is_zero.
  destruct (Qeq_bool p 0) eqn:E; cbn [negb value]; [ | exact Hx ].
  apply Qeq_bool_iff in E. rewrite <- Hx, E. reflexivity.
Qed.

(** The value of [calculateBankAccountGrowth] over at least one year, for a
    finite balance and a finite interest rate. *)
Lemma calculateBankAccountGrowth_value (account : BankAccount.t) (b r : Q) (years : Z) :
  value (BankAccount.balance account) b ->
  value (BankAccount.interestRate account) r ->
  (1 <= years)%Z ->
  value (calculateBankAccountGrowth (Some account) years)
    (b * (1 + r / 100 / 4) ^ (4 * years)).
Proof.
  intros Hb Hr Hy. unfold calculateBankAccountGrowth.
  destruct (Z.leb_spec years 0); [ lia | ]. cbv zeta.
  pose proof (value_or_else_zero _ _ Hr) as Hr'.
  change (of_Z 4) with (Fin 4).
  value_of.
Qed.

(** X26. With nothing to grow [calculateBankAccountGrowth] returns what
    there is.  It returns 0 for a missing account; for an account with a
    finite balance it returns the balance, unchanged, when years <= 0 and
    also, for every integer years, when the interestRate is 0 or NaN (which
    [|| 0] turns into 0): there is no singularity at a zero rate here; and it
    returns 0 for a NaN balance when years <= 0. *)
Theorem calculateBankAccountGrowth_nothing_to_grow (account : BankAccount.t) (years : Z) :
  calculateBankAccountGrowth None years = Fin 0 /\
  (forall balance : Q,
     BankAccount.balance account = Fin balance ->
     (years <= 0)%Z \/
     BankAccount.interestRate account = Fin 0 \/ BankAccount.interestRate account = NaN ->
     same (calculateBankAccountGrowth (Some account) years) (Fin balance)) /\
  (BankAccount.balance account = NaN -> (years <= 0)%Z ->
   calculateBankAccountGrowth (Some account) years = Fin 0).
Proof.
  split; [ reflexivity | ]. split.
  - intros balance Hb Hcase.
    change (value (calculateBankAccountGrowth (Some account) years) balance).
    unfold calculateBankAccountGrowth.
    destruct (Z.leb_spec years 0) as [ | Hy ].
    + rewrite Hb. apply value_or_else_zero, value_Fin.
    + destruct Hcase as [ | Hr ]; [ lia | ].
      cbv zeta. rewrite Hb.
      assert (Hrate : or_else (BankAccount.interestRate account) (Fin 0) = Fin 0)
        by (destruct Hr as [-> | ->]; reflexivity).
      rewrite Hrate.
      change (Fin 1 + Fin 0 / Fin 100 / of_Z 4)%num with (Fin 1).
      assert (Hpw : value (Math_pow (Fin 1) (4 * years)) 1).
      { unfold Math_pow. destruct (4 * years =? 0)%Z; [ apply value_Fin | ].
        change (is_zero 1) with false. cbn [andb]. apply value_fin, Qpower_1. }
      apply (value_comp _ (balance * 1)); [ value_of | ring ].
  - intros Hb Hy. unfold calculateBankAccountGrowth.
    destruct (Z.leb_spec years 0); [ | lia ].
    rewrite Hb. reflexivity.
Qed.

Lemma calculateBankAccountGrowth_nothing_to_grow_witness :
  calculateBankAccountGrowth None 1 = Fin 0 /\
  same (calculateBankAccountGrowth (Some (example_account (Fin 4645000) (Fin 0) true)) 10)
       (Fin 4645000) /\
  calculateBankAccountGrowth (Some (example_account NaN (Fin 3) true)) 0 = Fin 0.
Proof.
  destruct (calculateBankAccountGrowth_nothing_to_grow
              (example_account (Fin 4645000) (Fin 0) true) 10) as (_ & Hsame & _).
  destruct (calculateBankAccountGrowth_nothing_to_grow
              (example_account NaN (Fin 3) true) 0) as (_ & _ & Hnan).
  destruct (calculateBankAccountGrowth_nothing_to_grow
              (example_account NaN (Fin 3) true) 1) as (Hnone & _ & _).
  split; [ exact Hnone | ].
  split; [ apply (Hsame 4645000); [ reflexivity | right; left; reflexivity ] | ].
  apply Hnan; [ reflexivity | by_evaluation ].
Defined.

Lemma inject_Z_4_mult (n : Z) : inject_Z (4 * n) == 4 * inject_Z n.
Proof. rewrite inject_Z_mult. reflexivity. Qed.

Lemma quarterly_rate_nonneg (r : Q) : 0 <= r -> 0 <= r / 100 / 4.
Proof.
  intros H. unfold Qdiv. change (/ 100) with (1 # 100). change (/ 4) with (1 # 4). lra.
Qed.





(** ** Monthly income on the dashboard and on the income page *)

Section MonthlyIncome.

Local Abbreviation dashboard_step := (fun sum income => (sum + Income.amount income)%num).
Local Abbreviation is_monthly :=
  (fun income => match Income.frequency income with
                 | Frequency.MONTHLY => true
                 | _ => false
                 end).
Local Abbreviation page_step :=
  (fun total income =>
     match Income.frequency income with
     | Frequency.ONE_TIME => total
     | Frequency.WEEKLY =>
         let monthlyAmount := (Income.amount income * Fin 4.33)%num in
         (total + monthlyAmount)%num
     | Frequency.MONTHLY =>
         let monthlyAmount := Income.amount income in
         (total + monthlyAmount)%num
     | Frequency.QUARTERLY =>
         let monthlyAmount := (Income.amount income / Fin 3)%num in
         (total + monthlyAmount)%num
     | Frequency.HALF_YEARLY =>
         let monthlyAmount := (Income.amount income / Fin 6)%num in
         (total + monthlyAmount)%num
     | Frequency.YEARLY =>
         let monthlyAmount := (Income.amount income / Fin 12)%num in
         (total + monthlyAmount)%num
     end).

(** From totals in order, the two folds end in totals in order. *)
Lemma monthly_income_le (incomes : list Income.t) :
  Forall nonnegative_amount incomes ->
  forall (sum total : number) (a b : Q),
    value sum a -> value total b -> a <= b ->
    exists a' b' : Q,
      value (fold_left dashboard_step (filter is_monthly incomes) sum) a' /\
      value (fold_left page_step incomes total) b' /\
      a' <= b'.
Proof.
  induction 1 as [ | income incomes (q & Hq & Hq0) _ IH ]; intros sum total a b Ha Hb Hab.
  - exists a, b. cbn [filter fold_left]. auto.
  - cbn [filter fold_left]. rewrite Hq.
    destruct (Income.frequency income); cbn [fold_left]; cbv zeta.
    + apply (IH _ _ a b); assumption.
    + apply (IH _ _ a (b + q * 4.33)); [ assumption | value_of | ].
      assert (0 <= q * 4.33) by (apply Qmult_le_0_compat; [ assumption | by_evaluation ]).
      lra.
    + rewrite Hq. apply (IH _ _ (a + q) (b + q)); [ value_of | value_of | lra ].
    + apply (IH _ _ a (b + q / 3)); [ assumption | value_of | ].
      assert (0 <= q / 3) by (apply Qle_shift_div_l; [ reflexivity | lra ]). lra.
    + apply (IH _ _ a (b + q / 6)); [ assumption | value_of | ].
      assert (0 <= q / 6) by (apply Qle_shift_div_l; [ reflexivity | lra ]). lra.
    + apply (IH _ _ a (b + q / 12)); [ assumption | value_of | ].
      assert (0 <= q / 12) by (apply Qle_shift_div_l; [ reflexivity | lra ]). lra.
Qed.

Lemma monthly_income_eq (incomes : list Income.t) :
  Forall monthly_or_one_time incomes ->
  forall acc : number,
    fold_left dashboard_step (filter is_monthly incomes) acc
    = fold_left page_step incomes acc.
Proof.
  induction 1 as [ | income incomes [Hf | Hf] _ IH ]; intros acc; [ reflexivity | | ];
    cbn [filter fold_left]; rewrite Hf; cbn [fold_left]; apply IH.
Qed.

End MonthlyIncome.

(** X29. The dashboard counts only the incomes of monthly frequency, the
    income page every recurring income.  For incomes with finite amounts >=
    0, the dashboard's monthlyIncomeTotal is at most the income page's
    [calculateMonthlyIncome], and the two are the same number when every
    income is MONTHLY or ONE_TIME. *)
Theorem Dashboard_monthlyIncomeTotal_undercounts (incomes : list Income.t) :
  Forall nonnegative_amount incomes ->
  (Dashboard.monthlyIncomeTotal incomes <=? IncomePage.calculateMonthlyIncome incomes)%num
  = true /\
  (Forall monthly_or_one_time incomes ->
   Dashboard.monthlyIncomeTotal incomes = IncomePage.calculateMonthlyIncome incomes).
Proof.
  intros Hall. split.
  - destruct (monthly_income_le incomes Hall (Fin 0) (Fin 0) 0 0
                (value_Fin 0) (value_Fin 0) ltac:(lra))
      as (a & b & Ha & Hb & Hab).
    exact (leb_value _ _ a b Ha Hb Hab).
  - intros Hfreq. apply monthly_income_eq. exact Hfreq.
Qed.

Lemma Dashboard_monthlyIncomeTotal_undercounts_witness :
  let incomes :=
    [ example_income (Fin 145000) Frequency.MONTHLY;
      example_income (Fin 120000) Frequency.YEARLY;
      example_income (Fin 20000) Frequency.WEEKLY ] in
  (Dashboard.monthlyIncomeTotal incomes <=? IncomePage.calculateMonthlyIncome incomes)%num
  = true.
Proof.
  intros incomes.
  apply (Dashboard_monthlyIncomeTotal_undercounts incomes).
  repeat constructor; eexists; (split; [ reflexivity | by_evaluation ]).
Defined.

(** ** Expenses by category *)

Lemma categories_q_add (v : ExpenseCategory.t -> Q) (category : ExpenseCategory.t) (x : Q) :
  categories_q (fun c => if ExpensesPage.category_eqb c category then v c + x else v c)
  == categories_q v + x.
Proof. destruct category; unfold categories_q; cbn; ring. Qed.

Lemma value_add_to (categoryTotals : ExpensesPage.CategoryTotals) (v : ExpenseCategory.t -> Q)
  (category : ExpenseCategory.t) (amount : number) (x : Q) :
  (forall c, value (categoryTotals c) (v c)) -> value amount x ->
  forall c, value (ExpensesPage.add_to categoryTotals category amount c)
              (if ExpensesPage.category_eqb c category then v c + x else v c).
Proof.
  intros Hv Hx c. unfold ExpensesPage.add_to.
  destruct (ExpensesPage.category_eqb c category); [ apply value_add; auto | apply Hv ].
Qed.

Lemma value_categoriesTotal (categoryTotals : ExpensesPage.CategoryTotals)
  (v : ExpenseCategory.t -> Q) :
  (forall c, value (categoryTotals c) (v c)) ->
  value (categoriesTotal categoryTotals) (categories_q v).
Proof.
  intros Hv. unfold categoriesTotal, categories_q, categories. cbn [fold_left].
  repeat (apply value_add; [ | apply Hv ]). apply value_Fin.
Qed.

Section ExpensesByCategory.

Local Abbreviation total_step :=
  (fun total expense =>
     match Expense.frequency expense with
     | Frequency.ONE_TIME => total
     | Frequency.WEEKLY =>
         let monthlyAmount := (Expense.amount expense * Fin 4.33)%num in
         (total + monthlyAmount)%num
     | Frequency.MONTHLY =>
         let monthlyAmount := Expense.amount expense in
         (total + monthlyAmount)%num
     | Frequency.QUARTERLY =>
         let monthlyAmount := (Expense.amount expense / Fin 3)%num in
         (total + monthlyAmount)%num
     | Frequency.HALF_YEARLY =>
         let monthlyAmount := (Expense.amount expense / Fin 6)%num in
         (total + monthlyAmount)%num
     | Frequency.YEARLY =>
         let monthlyAmount := (Expense.amount expense / Fin 12)%num in
         (total + monthlyAmount)%num
     end).

Local Abbreviation category_step :=
  (fun categoryTotals expense =>
     match Expense.frequency expense with
     | Frequency.MONTHLY =>
         ExpensesPage.add_to categoryTotals (Expense.category expense) (Expense.amount expense)
     | Frequency.WEEKLY =>
         ExpensesPage.add_to categoryTotals (Expense.category expense)
           (Expense.amount expense * Fin 4.33)%num
     | Frequency.QUARTERLY =>
         ExpensesPage.add_to categoryTotals (Expense.category expense)
           (Expense.amount expense / Fin 3)%num
     | Frequency.HALF_YEARLY =>
         ExpensesPage.add_to categoryTotals (Expense.category expense)
           (Expense.amount expense / Fin 6)%num
     | Frequency.YEARLY =>
         ExpensesPage.add_to categoryTotals (Expense.category expense)
           (Expense.amount expense / Fin 12)%num
     | Frequency.ONE_TIME => categoryTotals
     end).

(** One step of the induction below, for an expense that adds the amount of
    [Hamt] to both folds. *)
Local Ltac same_amount IH Ha Hv Hamt category :=
  let a' := fresh "a'" in
  let v' := fresh "v'" in
  let Ha' := fresh "Ha'" in
  let Hv' := fresh "Hv'" in
  let E := fresh "E" in
  destruct (IH _ _ _ _ (value_add _ _ _ _ Ha Hamt)
              (value_add_to _ _ category _ _ Hv Hamt))
    as (a' & v' & Ha' & Hv' & E);
  exists a', v'; split; [ exact Ha' | ]; split; [ exact Hv' | ];
  rewrite categories_q_add in E; lra.

(** Both folds add the same monthly amount for each expense: the total over
    the categories moves with the overall total. *)
Lemma expenses_folds (expenses : list Expense.t) :
  Forall finite_amount expenses ->
  forall (total : number) (categoryTotals : ExpensesPage.CategoryTotals)
         (a : Q) (v : ExpenseCategory.t -> Q),
    value total a -> (forall c, value (categoryTotals c) (v c)) ->
    exists (a' : Q) (v' : ExpenseCategory.t -> Q),
      value (fold_left total_step expenses total) a' /\
      (forall c, value (fold_left category_step expenses categoryTotals c) (v' c)) /\
      categories_q v' - categories_q v == a' - a.
Proof.
  induction 1 as [ | expense expenses (q & Hq) _ IH ]; intros total categoryTotals a v Ha Hv.
  - exists a, v. cbn [fold_left]. split; [ exact Ha | ]. split; [ exact Hv | ring ].
  - cbn [fold_left]. rewrite Hq.
    destruct (Expense.frequency expense); cbv zeta.
    + apply IH; assumption.
    + assert (Hamt : value (Fin q * Fin 4.33)%num (q * 4.33)) by value_of.
      same_amount IH Ha Hv Hamt (Expense.category expense).
    + assert (Hamt : value (Fin q) q) by value_of.
      same_amount IH Ha Hv Hamt (Expense.category expense).
    + assert (Hamt : value (Fin q / Fin 3)%num (q / 3)) by value_of.
      same_amount IH Ha Hv Hamt (Expense.category expense).
    + assert (Hamt : value (Fin q / Fin 6)%num (q / 6)) by value_of.
      same_amount IH Ha Hv Hamt (Expense.category expense).
    + assert (Hamt : value (Fin q / Fin 12)%num (q / 12)) by value_of.
      same_amount IH Ha Hv Hamt (Expense.category expense).
Qed.

End ExpensesByCategory.


